(** * check-dependencies.js: outdated-dependency checker

    A shallow embedding of the resolution and ranking engine of
    [check-dependencies.js]: the lockfile resolver, the version normaliser,
    the registry lookup, the documentation-URL chain, the version distance,
    the sort and the priority partition.

    Modelling conventions.
    - JavaScript strings are [string]s (sequences of one-byte characters;
      every string the program builds itself is ASCII).
    - A JavaScript object used as a map is a property list [Dict V], a list
      of (key, value) pairs in property order; [Object.keys] and
      [Object.entries] read it left to right.
    - JavaScript numbers are binary64 values.  The numbers of the program
      are integers, kept as [Z]; every arithmetic operation returns its
      exact result rounded to the nearest binary64 value ([JS.number]),
      which is the exact result itself while that stays below 2^53 in
      magnitude.
    - The file system, the network and the third-party parsers ([semver],
      [@yarnpkg/lockfile]) are parameters of the functions that use them;
      a call that throws is a parameter that answers [None]. *)

From Stdlib Require Import String Ascii List ZArith Bool Lia Permutation Sorted.
Import ListNotations.
Local Open Scope string_scope.
Local Open Scope list_scope.

(** ** JavaScript primitives used by the program *)

Module JS.

(** [s.startsWith(p)] *)
Fixpoint startsWith (s p : string) : bool :=
  match p, s with
  | EmptyString, _ => true
  | String _ _, EmptyString => false
  | String a p', String b s' => Ascii.eqb a b && startsWith s' p'
  end.

(** [s.slice(n)] for [0 <= n] *)
Fixpoint drop (n : nat) (s : string) : string :=
  match n, s with
  | O, _ => s
  | S _, EmptyString => EmptyString
  | S n', String _ s' => drop n' s'
  end.

(** [s.replace(pat, rep)] with a string pattern: the first occurrence of
    [pat], scanning from the left, is replaced and the rest is kept.  (The
    replacement strings of the program contain no dollar sign, so no
    replacement pattern is involved.) *)
Fixpoint replace (s pat rep : string) : string :=
  if startsWith s pat then (rep ++ drop (String.length pat) s)%string
  else match s with
       | EmptyString => EmptyString
       | String c s' => String c (replace s' pat rep)
       end.

(** [s.includes(pat)] *)
Fixpoint includes (s pat : string) : bool :=
  if startsWith s pat then true
  else match s with
       | EmptyString => false
       | String _ s' => includes s' pat
       end.

(** [s.split(sep)] for a one-character separator: always at least one
    segment; adjacent separators give empty segments. *)
Fixpoint split (s : string) (sep : ascii) : list string :=
  match s with
  | EmptyString => [EmptyString]
  | String c s' =>
      if Ascii.eqb c sep then EmptyString :: split s' sep
      else match split s' sep with
           | seg :: segs => String c seg :: segs
           | [] => [String c EmptyString]
           end
  end.

(** [Boolean(s)] on a string: only the empty string is falsy. *)
Definition truthy (s : string) : bool := negb (s =? "")%string.

(** [Boolean(x)] on a value that is a string, [undefined] or [null]. *)
Definition truthyOpt (x : option string) : bool :=
  match x with
  | Some s => truthy s
  | None => false
  end.

(** [arr.includes(x)] on an array of strings *)
Definition arrayIncludes (arr : list string) (x : string) : bool :=
  existsb (String.eqb x) arr.

(** Objects as property lists. *)
Definition Dict (V : Type) : Type := list (string * V).

Definition keys {V} (o : Dict V) : list string := map fst o.

(** [o[k]]: [None] stands for [undefined]. *)
Fixpoint get {V} (o : Dict V) (k : string) : option V :=
  match o with
  | [] => None
  | (k', v) :: o' => if (k' =? k)%string then Some v else get o' k
  end.

(** [o[k] = v]: an existing property keeps its place, a new one goes last. *)
Fixpoint set {V} (o : Dict V) (k : string) (v : V) : Dict V :=
  match o with
  | [] => [(k, v)]
  | (k', v') :: o' =>
      if (k' =? k)%string then (k', v) :: o' else (k', v') :: set o' k v
  end.

(** [arr.sort(comparefn)].  The language standard requires a stable sort
    and, for a comparator that is a consistent ordering, fixes the result:
    the one stable rearrangement in which no element is followed by one that
    compares strictly before it.  Insertion from the right computes it: an
    element moves past exactly the elements that compare strictly before
    it. *)
Fixpoint sortInsert {A} (comparefn : A -> A -> Z) (x : A) (l : list A) : list A :=
  match l with
  | [] => [x]
  | y :: l' =>
      if (comparefn x y <=? 0)%Z then x :: y :: l'
      else y :: sortInsert comparefn x l'
  end.

Fixpoint sort {A} (comparefn : A -> A -> Z) (l : list A) : list A :=
  match l with
  | [] => []
  | x :: l' => sortInsert comparefn x (sort comparefn l')
  end.

(** Numbers.  [nearest a], for [0 <= a], is the binary64 value nearest to
    the integer [a]: [a] itself below 2^53; from there on the multiple of
    the spacing [2 ^ (log2 a - 52)] nearest to [a], the one with the even
    significand when [a] is half way between two.  (Binary64 overflows at
    2^1024; the numbers of the program, built from version components below
    2^53, stay far below that.) *)
Definition nearest (a : Z) : Z :=
  if (a <? 2 ^ 53)%Z then a
  else
    let quantum := (2 ^ (Z.log2 a - 52))%Z in
    let low := (a / quantum)%Z in
    let rest := (a mod quantum)%Z in
    let half := (quantum / 2)%Z in
    let significand :=
      if (rest <? half)%Z then low
      else if (half <? rest)%Z then (low + 1)%Z
      else if Z.even low then low
      else (low + 1)%Z in
    (significand * quantum)%Z.

(** The number an operation returns when its exact result is the integer
    [x]. *)
Definition number (x : Z) : Z := (Z.sgn x * nearest (Z.abs x))%Z.

(** [x - y], [x * y] and [x + y] on numbers that are integers. *)
Definition sub (x y : Z) : Z := number (x - y).
Definition mul (x y : Z) : Z := number (x * y).
Definition add (x y : Z) : Z := number (x + y).

End JS.

(** ** Data model *)

(** An entry of the parsed lockfile; only [version] is read. *)
Record LockEntry := { version : string }.

Definition Lock : Type := JS.Dict LockEntry.

(** What [semver.parse] returns on success; only these fields are read. *)
Record SemVer := { major : Z; minor : Z; patch : Z }.

(** The body of a registry response, [response.data]; an absent field is
    [None]. *)
Record Repository := { url : option string }.
Record DistTags := { latest : string }.
Record RegistryData := {
  dist_tags : option DistTags;
  repository : option Repository;
  homepage : option string
}.

(** The object [getPackageInfo] returns. *)
Record PkgInfo := {
  info_latestVersion : string;
  repositoryUrl : option string;
  homepageUrl : option string
}.

(** The object [getDependencyUpdates] returns per outdated package. *)
Record UpdateRecord := {
  pkg : string;
  currentVersion : string;
  latestVersion : string;
  docUrl : string
}.

(** ** The program *)

(** [key.split('@').filter(Boolean)], first element: [None] is
    [undefined]. *)
Definition lockedPkgOf (key : string) : option string :=
  hd_error (filter JS.truthy (JS.split key "@"%char)).

(** [pkg === lockedPkg] *)
Definition sameName (name : string) (lockedPkg : option string) : bool :=
  match lockedPkg with
  | Some l => (name =? l)%string
  | None => false
  end.

(** The inner [forEach] of [getPackagesFromYarnLock]: every key of the
    lockfile is visited, and every key whose name part equals [name]
    assigns [dependencies[name]]. *)
Definition scanLock (parsedYarnLock : Lock) (name : string)
    (dependencies : JS.Dict string) : JS.Dict string :=
  fold_left
    (fun deps key =>
       if sameName name (lockedPkgOf key) then
         match JS.get parsedYarnLock key with
         | Some entry => JS.set deps name (version entry)
         | None => deps
         end
       else deps)
    (JS.keys parsedYarnLock) dependencies.

(** The template literal [`${pkg}@${packageJsonDependencies[pkg]}`]. *)
Definition dependencyKeyOf (packageJsonDependencies : JS.Dict string)
    (name : string) : string :=
  (name ++ "@" ++
   match JS.get packageJsonDependencies name with
   | Some range => range
   | None => "undefined"
   end)%string.

(** One round of the outer [forEach] of [getPackagesFromYarnLock]. *)
Definition resolveName (packageJsonDependencies : JS.Dict string)
    (parsedYarnLock : Lock) (dependencies : JS.Dict string) (name : string)
    : JS.Dict string :=
  match JS.get parsedYarnLock (dependencyKeyOf packageJsonDependencies name) with
  | Some entry => JS.set dependencies name (version entry)
  | None => scanLock parsedYarnLock name dependencies
  end.

(** [getPackagesFromYarnLock] after the lockfile has been parsed. *)
Definition resolveLock (packageJsonDependencies : JS.Dict string)
    (parsedYarnLock : Lock) : JS.Dict string :=
  fold_left (resolveName packageJsonDependencies parsedYarnLock)
    (JS.keys packageJsonDependencies) [].

(** [getPackagesFromYarnLock].  [lockfile] is the content of the file at the
    lockfile path, [None] when [fs.existsSync] is false; [parse] is the
    lockfile parser, [None] when it throws.  The result [None] is [null]. *)
Definition getPackagesFromYarnLock (lockfile : option string)
    (parse : string -> option Lock)
    (packageJsonDependencies : JS.Dict string) : option (JS.Dict string) :=
  match lockfile with
  | None => None
  | Some yarnLock =>
      match parse yarnLock with
      | None => None
      | Some parsedYarnLock =>
          Some (resolveLock packageJsonDependencies parsedYarnLock)
      end
  end.

(** [normalizeVersion]: the regular expression [/^[\^~]/] matches one caret
    or tilde at the start of the string. *)
Definition normalizeVersion (v : string) : string :=
  match v with
  | String c rest =>
      if (Ascii.eqb c "^" || Ascii.eqb c "~")%char%bool then rest else v
  | EmptyString => v
  end.

(** [convertSshUrlToHttps]: each branch tests a prefix and then replaces the
    first occurrence of that same text. *)
Definition convertSshUrlToHttps (sshUrl : string) : string :=
  if JS.startsWith sshUrl "ssh://git@github.com/" then
    JS.replace sshUrl "ssh://git@github.com/" "https://github.com/"
  else if JS.startsWith sshUrl "git@github.com:" then
    JS.replace sshUrl "git@github.com:" "https://github.com/"
  else if JS.startsWith sshUrl "git://github.com/" then
    JS.replace sshUrl "git://github.com/" "https://github.com/"
  else sshUrl.

(** The repository URL as [getDependencyUpdates] prepares it:
    [convertSshUrlToHttps(url.replace('git+', '').replace('.git', ''))]. *)
Definition cleanRepositoryUrl (repositoryUrl : string) : string :=
  convertSshUrlToHttps
    (JS.replace (JS.replace repositoryUrl "git+" "") ".git" "").

(** The fallback page on the npm web site. *)
Definition npmVersionsUrl (name : string) : string :=
  ("https://www.npmjs.com/package/" ++ name ++ "?activeTab=versions")%string.

Section Program.

(** [semver.parse]: [None] is [null]. *)
Variable semverParse : string -> option SemVer.

(** [axios.get] on a registry URL: the body of the response, [None] when
    the request throws. *)
Variable registryGet : string -> option RegistryData.

(** [axios.get] on a releases URL: the length of [response.data], [None]
    when the request throws. *)
Variable releasesGet : string -> option nat.

(** [@yarnpkg/lockfile]'s [parse(...).object]: [None] when it throws. *)
Variable parseLock : string -> option Lock.

(** [getPackageInfo]: a request that throws, or a body without [dist-tags]
    (reading [latest] of [undefined] throws), is caught and gives [null]. *)
Definition getPackageInfo (name : string) : option PkgInfo :=
  match registryGet ("https://registry.npmjs.org/" ++ name)%string with
  | None => None
  | Some data =>
      match dist_tags data with
      | None => None
      | Some tags =>
          Some {| info_latestVersion := latest tags;
                  repositoryUrl :=
                    match repository data with
                    | Some r => url r
                    | None => None
                    end;
                  homepageUrl := homepage data |}
      end
  end.

(** [checkReleases]: its own [catch] turns a failed request into [false],
    so it never throws. *)
Definition checkReleases (repoUrl : string) : bool :=
  let httpsUrl := convertSshUrlToHttps repoUrl in
  let apiUrl :=
    JS.replace httpsUrl "https://github.com/" "https://api.github.com/repos/" in
  match releasesGet (apiUrl ++ "/releases")%string with
  | Some n => (0 <? n)%nat
  | None => false
  end.

(** The documentation URL chosen inside [getDependencyUpdates].  The [catch]
    around the call of [checkReleases] assigns the same URL as the branch
    without releases. *)
Definition resolveDocUrl (name : string) (pkgInfo : PkgInfo) : string :=
  let repoUrl :=
    match repositoryUrl pkgInfo with
    | Some u => if JS.truthy u then cleanRepositoryUrl u else ""
    | None => ""
    end in
  if JS.truthy repoUrl then
    if checkReleases repoUrl then (repoUrl ++ "/releases")%string
    else npmVersionsUrl name
  else if JS.truthyOpt (homepageUrl pkgInfo) then
    match homepageUrl pkgInfo with
    | Some h => h
    | None => "N/A"
    end
  else npmVersionsUrl name.

(** The callback that [getDependencyUpdates] maps over the entries: [None]
    is the [undefined] of a callback that returns nothing. *)
Definition checkDependency (entry : string * string) : option UpdateRecord :=
  let '(name, current) := entry in
  let normalizedCurrentVersion := normalizeVersion current in
  match getPackageInfo name with
  | Some pkgInfo =>
      if negb (info_latestVersion pkgInfo =? normalizedCurrentVersion)%string
      then Some {| pkg := name;
                   currentVersion := normalizedCurrentVersion;
                   latestVersion := info_latestVersion pkgInfo;
                   docUrl := resolveDocUrl name pkgInfo |}
      else None
  | None => None
  end.

(** [getDependencyUpdates]: [Promise.all] keeps the order of the entries,
    and [updates.filter(update => update)] drops the [undefined]s. *)
Fixpoint getDependencyUpdates (dependencies : JS.Dict string)
    : list UpdateRecord :=
  match dependencies with
  | [] => []
  | entry :: rest =>
      match checkDependency entry with
      | Some update => update :: getDependencyUpdates rest
      | None => getDependencyUpdates rest
      end
  end.

(** [calculateVersionDifference] *)
Definition calculateVersionDifference (current latest : string) : Z :=
  match semverParse current, semverParse latest with
  | Some c, Some l =>
      let majorDiff := JS.sub (major l) (major c) in
      let minorDiff := JS.sub (minor l) (minor c) in
      let patchDiff := JS.sub (patch l) (patch c) in
      JS.add (JS.add (JS.mul majorDiff 10000) (JS.mul minorDiff 100)) patchDiff
  | _, _ => 0%Z
  end.

(** The version distance of an update record. *)
Definition distance (u : UpdateRecord) : Z :=
  calculateVersionDifference (currentVersion u) (latestVersion u).

(** The comparator of [sortUpdates]: [diffB - diffA]. *)
Definition compareUpdates (a b : UpdateRecord) : Z :=
  JS.sub (distance b) (distance a).

(** [sortUpdates] *)
Definition sortUpdates (updates : list UpdateRecord) : list UpdateRecord :=
  JS.sort compareUpdates updates.

(** The two filters of [main]. *)
Definition prioritized (priorityPackages : list string)
    (sorted : list UpdateRecord) : list UpdateRecord :=
  filter (fun update => JS.arrayIncludes priorityPackages (pkg update)) sorted.

Definition others (priorityPackages : list string)
    (sorted : list UpdateRecord) : list UpdateRecord :=
  filter (fun update => negb (JS.arrayIncludes priorityPackages (pkg update)))
    sorted.

(** Which dependency map the run reported on. *)
Inductive Source := FromYarnLock | FromPackageJson.

(** What [main] hands to [outputJson], with the source of the figures. *)
Record Report := {
  source : Source;
  priorityUpdates : list UpdateRecord;
  otherUpdates : list UpdateRecord
}.

(** [main], from the merged dependency map to the reported lists.
    [lockfile] is the content of the lockfile, [None] when the file does not
    exist. *)
Definition main (lockfile : option string) (priorityPackages : list string)
    (packageJsonDependencies : JS.Dict string) : Report :=
  let yarnLockDependencies :=
    getPackagesFromYarnLock lockfile parseLock packageJsonDependencies in
  let updatesFromYarnLock :=
    match yarnLockDependencies with
    | Some deps => getDependencyUpdates deps
    | None => []
    end in
  let updatesFromPackageJson :=
    match yarnLockDependencies with
    | Some _ => []
    | None => getDependencyUpdates packageJsonDependencies
    end in
  let sortedUpdatesFromPackageJson := sortUpdates updatesFromPackageJson in
  let sortedUpdatesFromYarnLock := sortUpdates updatesFromYarnLock in
  match yarnLockDependencies with
  | Some _ =>
      {| source := FromYarnLock;
         priorityUpdates := prioritized priorityPackages sortedUpdatesFromYarnLock;
         otherUpdates := others priorityPackages sortedUpdatesFromYarnLock |}
  | None =>
      {| source := FromPackageJson;
         priorityUpdates := prioritized priorityPackages sortedUpdatesFromPackageJson;
         otherUpdates := others priorityPackages sortedUpdatesFromPackageJson |}
  end.

End Program.

(** ** The rest of the program: manifest, configuration, table output *)

(** The two fields of the manifest that [main] reads; an absent field is
    [None]. *)
Record PackageJson := {
  dependencies : option (JS.Dict string);
  devDependencies : option (JS.Dict string)
}.

(** Object spread, [{ ...target, ...o }] for an object [target] under
    construction: the properties of [o] are assigned in order. *)
Definition spreadInto {V} (target o : JS.Dict V) : JS.Dict V :=
  fold_left (fun t kv => JS.set t (fst kv) (snd kv)) o target.

(** Spreading [undefined] adds nothing. *)
Definition ownProperties {V} (o : option (JS.Dict V)) : JS.Dict V :=
  match o with
  | Some d => d
  | None => []
  end.

(** [{ ...packageJson.dependencies, ...packageJson.devDependencies }] *)
Definition mergedDependencies (packageJson : PackageJson) : JS.Dict string :=
  spreadInto (spreadInto [] (ownProperties (dependencies packageJson)))
    (ownProperties (devDependencies packageJson)).

(** The content of the priority configuration; [priorityPackages] is
    [None] when the field is absent or falsy. *)
Record Config := { priorityPackages : option (list string) }.

Definition defaultPriorityPackages : list string := ["react"; "axios"; "express"].

Section Configuration.

(** [JSON.parse] of the configuration text, [None] when it throws, and
    [JSON.stringify(config, null, 2)]. *)
Variable jsonParse : string -> option Config.
Variable jsonStringify : Config -> string.

(** [generateDefaultConfigFile]: the content written at the configuration
    path. *)
Definition generateDefaultConfigFile : string :=
  jsonStringify {| priorityPackages := Some defaultPriorityPackages |}.

(** [loadPriorityPackages].  [configFile] is the content of the file at the
    configuration path, [None] when it does not exist.  The result is the
    content of the file afterwards and the list returned, [None] when
    [JSON.parse] throws. *)
Definition loadPriorityPackages (configFile : option string)
    : string * option (list string) :=
  let content :=
    match configFile with
    | Some text => text
    | None => generateDefaultConfigFile
    end in
  (content,
   match jsonParse content with
   | Some config =>
       Some match priorityPackages config with
            | Some packages => packages
            | None => []
            end
   | None => None
   end).

End Configuration.

(** [calculateColumnWidths].  [hyperlinks] is the answer of
    [supportsHyperlinks()], the same for the whole run. *)
Definition widenColumns (hyperlinks : bool) (widths : nat * nat * nat)
    (update : UpdateRecord) : nat * nat * nat :=
  let '(packageWidth, versionUpdateWidth, docsWidth) := widths in
  let docLinkLength :=
    if hyperlinks then String.length "Link" else String.length (docUrl update) in
  (Nat.max packageWidth (String.length (pkg update)),
   Nat.max versionUpdateWidth
     (String.length
        (currentVersion update ++ " -> " ++ latestVersion update)%string),
   Nat.max docsWidth docLinkLength).

Definition calculateColumnWidths (hyperlinks : bool)
    (updates : list UpdateRecord) : nat * nat * nat :=
  let '(packageWidth, versionUpdateWidth, docsWidth) :=
    fold_left (widenColumns hyperlinks) updates
      (String.length "Package", String.length "Current -> Latest",
       String.length "Docs") in
  (packageWidth + 2, versionUpdateWidth + 2, docsWidth + 2).

(** What [displayTable] prints, before rendering: the title, the updates of
    the rows and the column widths. *)
Record Table := {
  title : string;
  rows : list UpdateRecord;
  colWidths : nat * nat * nat
}.

(** [displayTable]: nothing is printed for an empty list. *)
Definition displayTable (heading : string) (updates : list UpdateRecord)
    (widths : nat * nat * nat) : list Table :=
  match updates with
  | [] => []
  | _ :: _ => [{| title := heading; rows := updates; colWidths := widths |}]
  end.

Section TableOutput.

Variable semverParse : string -> option SemVer.
Variable registryGet : string -> option RegistryData.
Variable releasesGet : string -> option nat.
Variable parseLock : string -> option Lock.

(** [main] without the [--json] option: the tables printed, in order. *)
Definition mainTables (hyperlinks : bool) (lockfile : option string)
    (priorityPackages : list string)
    (packageJsonDependencies : JS.Dict string) : list Table :=
  let yarnLockDependencies :=
    getPackagesFromYarnLock lockfile parseLock packageJsonDependencies in
  let updatesFromYarnLock :=
    match yarnLockDependencies with
    | Some deps => getDependencyUpdates registryGet releasesGet deps
    | None => []
    end in
  let updatesFromPackageJson :=
    match yarnLockDependencies with
    | Some _ => []
    | None => getDependencyUpdates registryGet releasesGet packageJsonDependencies
    end in
  let sortedUpdatesFromPackageJson := sortUpdates semverParse updatesFromPackageJson in
  let sortedUpdatesFromYarnLock := sortUpdates semverParse updatesFromYarnLock in
  let prioritizedUpdatesFromPackageJson :=
    prioritized priorityPackages sortedUpdatesFromPackageJson in
  let otherUpdatesFromPackageJson :=
    others priorityPackages sortedUpdatesFromPackageJson in
  let prioritizedUpdatesFromYarnLock :=
    prioritized priorityPackages sortedUpdatesFromYarnLock in
  let otherUpdatesFromYarnLock :=
    others priorityPackages sortedUpdatesFromYarnLock in
  let allUpdates :=
    prioritizedUpdatesFromPackageJson ++ otherUpdatesFromPackageJson ++
    prioritizedUpdatesFromYarnLock ++ otherUpdatesFromYarnLock in
  let widths := calculateColumnWidths hyperlinks allUpdates in
  match yarnLockDependencies with
  | Some _ =>
      displayTable "Priority Updates from yarn.lock"
        prioritizedUpdatesFromYarnLock widths ++
      displayTable "Other Updates from yarn.lock"
        otherUpdatesFromYarnLock widths
  | None =>
      displayTable "Priority Updates from package.json"
        prioritizedUpdatesFromPackageJson widths ++
      displayTable "Other Updates from package.json"
        otherUpdatesFromPackageJson widths
  end.

End TableOutput.

(** ** Notions used to state the properties *)

(** A version string that starts with a caret or a tilde. *)
Definition hasRangePrefix (v : string) : bool :=
  (JS.startsWith v "^" || JS.startsWith v "~")%bool.

(** The test of the inner loop of the lockfile resolver on one key:
    [pkg === lockedPkg && parsedYarnLock[key]]. *)
Definition nameMatches (parsedYarnLock : Lock) (name key : string) : bool :=
  (sameName name (lockedPkgOf key) &&
   match JS.get parsedYarnLock key with
   | Some _ => true
   | None => false
   end)%bool.

(** The version under [key], if the lockfile has that key. *)
Definition versionAt (parsedYarnLock : Lock) (key : string) : option string :=
  option_map version (JS.get parsedYarnLock key).

(** The version of the first, and of the last, lock entry in property order
    whose name part is [name]. *)
Definition firstMatch (parsedYarnLock : Lock) (name : string) : option string :=
  match find (nameMatches parsedYarnLock name) (JS.keys parsedYarnLock) with
  | Some key => versionAt parsedYarnLock key
  | None => None
  end.

Definition lastMatch (parsedYarnLock : Lock) (name : string) : option string :=
  match find (nameMatches parsedYarnLock name) (rev (JS.keys parsedYarnLock)) with
  | Some key => versionAt parsedYarnLock key
  | None => None
  end.

(** What the resolver is expected to store for [name]: the version under
    the exact compound key, else the version of the last entry whose name
    part is [name]. *)
Definition resolvedVersion (packageJsonDependencies : JS.Dict string)
    (parsedYarnLock : Lock) (name : string) : option string :=
  match JS.get parsedYarnLock (dependencyKeyOf packageJsonDependencies name) with
  | Some entry => Some (version entry)
  | None => lastMatch parsedYarnLock name
  end.

(** The address that [checkReleases] requests for a repository URL. *)
Definition releasesEndpoint (repoUrl : string) : string :=
  (JS.replace (convertSshUrlToHttps repoUrl)
     "https://github.com/" "https://api.github.com/repos/" ++ "/releases")%string.

(** Records at distance [d]. *)
Definition atDistance (semverParse : string -> option SemVer) (d : Z)
    (updates : list UpdateRecord) : list UpdateRecord :=
  filter (fun u => (distance semverParse u =? d)%Z) updates.

(** Larger distances first. *)
Definition descending (semverParse : string -> option SemVer)
    (a b : UpdateRecord) : Prop :=
  (distance semverParse b <= distance semverParse a)%Z.

(** A stand-in for [semver.parse] on plain [MAJOR.MINOR.PATCH] strings of
    decimal digits, to run the program on concrete versions. *)
Definition digitOf (c : ascii) : option Z :=
  let n := nat_of_ascii c in
  if ((48 <=? n) && (n <=? 57))%nat%bool then Some (Z.of_nat (n - 48)) else None.

Fixpoint numberOf (acc : Z) (s : string) : option Z :=
  match s with
  | EmptyString => Some acc
  | String c s' =>
      match digitOf c with
      | Some d => numberOf (acc * 10 + d)%Z s'
      | None => None
      end
  end.

Definition componentOf (s : string) : option Z :=
  if JS.truthy s then numberOf 0%Z s else None.

Definition plainSemver (v : string) : option SemVer :=
  match JS.split v "."%char with
  | [a; b; c] =>
      match componentOf a, componentOf b, componentOf c with
      | Some x, Some y, Some z => Some {| major := x; minor := y; patch := z |}
      | _, _, _ => None
      end
  | _ => None
  end.

(** An integer that binary64 holds exactly together with its neighbours
    ([Number.isSafeInteger]). *)
Definition safeInteger (x : Z) : Prop := (Z.abs x < 2 ^ 53)%Z.

(** The results of the seven operations of [calculateVersionDifference] on
    two parsed versions are safe integers. *)
Definition exactlyComputed (c l : SemVer) : Prop :=
  safeInteger (major l - major c) /\
  safeInteger (minor l - minor c) /\
  safeInteger (patch l - patch c) /\
  safeInteger ((major l - major c) * 10000) /\
  safeInteger ((minor l - minor c) * 100) /\
  safeInteger ((major l - major c) * 10000 + (minor l - minor c) * 100) /\
  safeInteger ((major l - major c) * 10000 + (minor l - minor c) * 100
               + (patch l - patch c)).

(** Version components of at most eleven decimal digits. *)
Definition elevenDigits (v : SemVer) : Prop :=
  (0 <= major v <= 10 ^ 11 /\ 0 <= minor v <= 10 ^ 11 /\
   0 <= patch v <= 10 ^ 11)%Z.

(** [latest] is a later version than [current], comparing major, then
    minor, then patch. *)
Definition newer (current latest : SemVer) : Prop :=
  (major current < major latest \/
   (major current = major latest /\
    (minor current < minor latest \/
     (minor current = minor latest /\ patch current < patch latest))))%Z.

(** Minor and patch numbers of one or two digits. *)
Definition twoDigits (v : SemVer) : Prop :=
  (0 <= minor v < 100 /\ 0 <= patch v < 100)%Z.

(** The test of [getDependencyUpdates] on one entry: the lookup succeeded
    and the latest version is not the normalised current one. *)
Definition outdated (registryGet : string -> option RegistryData)
    (entry : string * string) : bool :=
  match getPackageInfo registryGet (fst entry) with
  | Some info =>
      negb (info_latestVersion info =? normalizeVersion (snd entry))%string
  | None => false
  end.

(** The resolver has a version for [name]. *)
Definition resolves (packageJsonDependencies : JS.Dict string)
    (parsedYarnLock : Lock) (name : string) : bool :=
  match resolvedVersion packageJsonDependencies parsedYarnLock name with
  | Some _ => true
  | None => false
  end.

(** The records shown by a list of tables, in order. *)
Definition shown (tables : list Table) : list UpdateRecord :=
  flat_map rows tables.

(** A codec for the configuration that knows the default configuration
    only. *)
Definition toyStringify (config : Config) : string := "default".

Definition toyParse (text : string) : option Config :=
  if (text =? "default")%string
  then Some {| priorityPackages := Some defaultPriorityPackages |}
  else None.

(** ** Example data *)

(** A manifest that asks for [widget], and two lockfiles without the exact
    key: one with a single [widget] entry, one with two. *)
Definition widgetManifest : JS.Dict string := [("widget", "^1.2.0")].

Definition widgetLock : Lock :=
  [("left-pad@^1.0.0", {| version := "1.3.0" |});
   ("widget@^1.0.0", {| version := "1.2.5" |})].

Definition widgetLockTwice : Lock :=
  [("widget@^1.0.0", {| version := "1.2.5" |});
   ("widget@^1.1.0", {| version := "1.3.0" |})].

(** A scoped package whose lock entry is under another range. *)
Definition babelManifest : JS.Dict string := [("@babel/core", "^7.0.0")].

Definition babelLock : Lock :=
  [("@babel/core@^7.1.0", {| version := "7.2.0" |})].

(** A manifest that declares [chalk] in both fields. *)
Definition examplePackageJson : PackageJson :=
  {| dependencies := Some [("react", "^18.0.0"); ("chalk", "^4.0.0")];
     devDependencies := Some [("jest", "^29.0.0"); ("chalk", "^5.0.0")] |}.

(** A package whose repository has no releases and which has a homepage. *)
Definition widgetInfo : PkgInfo :=
  {| info_latestVersion := "2.0.0";
     repositoryUrl := Some "git+ssh://git@github.com/acme/widget.git";
     homepageUrl := Some "https://widget.example" |}.

(** A registry that knows [left-pad] (latest 1.3.0) and [react] (latest
    18.0.0) and fails on every other request, and a host without releases. *)
Definition exampleRegistry (address : string) : option RegistryData :=
  if (address =? "https://registry.npmjs.org/left-pad")%string then
    Some {| dist_tags := Some {| latest := "1.3.0" |};
            repository := None; homepage := None |}
  else if (address =? "https://registry.npmjs.org/react")%string then
    Some {| dist_tags := Some {| latest := "18.0.0" |};
            repository := None; homepage := Some "https://react.dev/" |}
  else None.

Definition noReleases (address : string) : option nat := Some O.

Definition exampleDependencies : JS.Dict string :=
  [("left-pad", "^1.0.0"); ("broken", "^1.0.0"); ("react", "^18.0.0")].

(** A lockfile parser that throws on every input, and one that reads every
    input as a lockfile without entries. *)
Definition parseThrows (yarnLock : string) : option Lock := None.

Definition parseEmpty (yarnLock : string) : option Lock := Some [].

(** Three updates, at distances 5, 20000 and 100, and one more at 100. *)
Definition patchJump : UpdateRecord :=
  {| pkg := "left-pad"; currentVersion := "1.0.0"; latestVersion := "1.0.5";
     docUrl := "https://www.npmjs.com/package/left-pad?activeTab=versions" |}.

Definition majorJump : UpdateRecord :=
  {| pkg := "react"; currentVersion := "16.0.0"; latestVersion := "18.0.0";
     docUrl := "https://github.com/facebook/react/releases" |}.

Definition minorJump : UpdateRecord :=
  {| pkg := "axios"; currentVersion := "1.0.0"; latestVersion := "1.1.0";
     docUrl := "https://github.com/axios/axios/releases" |}.

Definition otherMinorJump : UpdateRecord :=
  {| pkg := "chalk"; currentVersion := "5.2.0"; latestVersion := "5.3.0";
     docUrl := "https://github.com/chalk/chalk/releases" |}.

(** Three updates from 0.0.0 to the largest major number [semver] accepts,
    with patch numbers 0, 1 and 2: their distances differ as integers and
    are one and the same binary64 value. *)
Definition hugeJump (latestPatch : string) : UpdateRecord :=
  {| pkg := "huge"; currentVersion := "0.0.0";
     latestVersion := ("9007199254740991.0." ++ latestPatch)%string;
     docUrl := "https://www.npmjs.com/package/huge?activeTab=versions" |}.

(** ** Proof automation *)

(** Case analysis on every character comparison of the goal. *)
Ltac split_eqb :=
  repeat match goal with
         | |- context [Ascii.eqb ?a ?b] =>
             let E := fresh "E" in
             destruct (Ascii.eqb a b) eqn:E;
             try (vm_compute in E; discriminate E);
             cbn [andb]
         end.

(** ** Properties of the JavaScript primitives *)

Lemma startsWith_refl_app (p rest : string) :
  JS.startsWith (p ++ rest) p = true.
Proof.
  induction p as [|a p IH]; simpl.
  - destruct rest; reflexivity.
  - rewrite Ascii.eqb_refl. exact IH.
Qed.

Lemma drop_length_app (p rest : string) :
  JS.drop (String.length p) (p ++ rest) = rest.
Proof.
  induction p as [|a p IH]; simpl.
  - destruct rest; reflexivity.
  - exact IH.
Qed.

Lemma replace_unfold (s pat rep : string) :
  JS.replace s pat rep =
  if JS.startsWith s pat then (rep ++ JS.drop (String.length pat) s)%string
  else match s with
       | EmptyString => EmptyString
       | String c s' => String c (JS.replace s' pat rep)
       end.
Proof. destruct s; reflexivity. Qed.

(** Replacing a pattern that stands at the very start. *)
Lemma replace_prefix (p rep rest : string) :
  JS.replace (p ++ rest) p rep = (rep ++ rest)%string.
Proof.
  rewrite replace_unfold, startsWith_refl_app, drop_length_app. reflexivity.
Qed.

Lemma includes_unfold (s pat : string) :
  JS.includes s pat =
  if JS.startsWith s pat then true
  else match s with
       | EmptyString => false
       | String _ s' => JS.includes s' pat
       end.
Proof. destruct s; reflexivity. Qed.

Lemma includes_head (s pat : string) :
  JS.includes s pat = false -> JS.startsWith s pat = false.
Proof.
  rewrite includes_unfold. destruct (JS.startsWith s pat); auto.
Qed.

Lemma includes_tail (c : ascii) (s pat : string) :
  JS.includes (String c s) pat = false -> JS.includes s pat = false.
Proof.
  rewrite includes_unfold.
  destruct (JS.startsWith (String c s) pat); [discriminate | auto].
Qed.

(** A string without the pattern is left alone. *)
Lemma replace_absent (s pat rep : string) :
  JS.includes s pat = false -> JS.replace s pat rep = s.
Proof.
  induction s as [|c s IH]; intros H; rewrite replace_unfold;
    rewrite (includes_head _ _ H); [reflexivity |].
  rewrite (IH (includes_tail _ _ _ H)). reflexivity.
Qed.

(** No occurrence of ["git+"] can end inside an appended [".git"]. *)
Lemma startsWith_gitplus_app (body : string) :
  JS.startsWith body "git+" = false ->
  JS.startsWith (body ++ ".git") "git+" = false.
Proof.
  destruct body as [|c0 [|c1 [|c2 [|c3 body]]]];
    cbn [JS.startsWith append]; split_eqb;
    intros H; try reflexivity; try discriminate H;
    destruct body; discriminate H.
Qed.

Lemma includes_gitplus_app (body : string) :
  JS.includes body "git+" = false ->
  JS.includes (body ++ ".git") "git+" = false.
Proof.
  induction body as [|c body IH]; intros H.
  - reflexivity.
  - change (String c body ++ ".git")%string with (String c (body ++ ".git")).
    rewrite includes_unfold.
    change (String c (body ++ ".git")) with (String c body ++ ".git")%string.
    rewrite (startsWith_gitplus_app _ (includes_head _ _ H)).
    apply IH. exact (includes_tail _ _ _ H).
Qed.

(** No occurrence of [".git"] can start in the body and end inside an
    appended [".git"]. *)
Lemma startsWith_dotgit_app (c : ascii) (body : string) :
  JS.startsWith (String c body) ".git" = false ->
  JS.startsWith (String c body ++ ".git") ".git" = false.
Proof.
  destruct body as [|c1 [|c2 [|c3 body]]];
    cbn [JS.startsWith append]; split_eqb;
    intros H; try reflexivity; try discriminate H;
    destruct body; discriminate H.
Qed.

(** A trailing [".git"] is the one removed when there is none before it. *)
Lemma replace_trailing_dotgit (body : string) :
  JS.includes body ".git" = false ->
  JS.replace (body ++ ".git") ".git" "" = body.
Proof.
  induction body as [|c body IH]; intros H.
  - reflexivity.
  - rewrite replace_unfold.
    rewrite (startsWith_dotgit_app _ _ (includes_head _ _ H)).
    cbn [append]. rewrite (IH (includes_tail _ _ _ H)). reflexivity.
Qed.

Lemma truthy_true (s : string) : JS.truthy s = true <-> s <> "".
Proof.
  unfold JS.truthy. destruct (String.eqb_spec s ""); simpl; split;
    intros; congruence.
Qed.

Lemma truthy_false (s : string) : JS.truthy s = false <-> s = "".
Proof.
  unfold JS.truthy. destruct (String.eqb_spec s ""); simpl; split;
    intros; congruence.
Qed.

(** ** Version normaliser *)

Lemma normalizeVersion_bare (v : string) :
  hasRangePrefix v = false -> normalizeVersion v = v.
Proof.
  unfold hasRangePrefix, normalizeVersion.
  destruct v as [|c v]; [reflexivity |].
  cbn [JS.startsWith].
  rewrite (Ascii.eqb_sym c "^"), (Ascii.eqb_sym c "~").
  destruct (Ascii.eqb "^" c), (Ascii.eqb "~" c); simpl;
    destruct v; simpl; intros; congruence.
Qed.

(** Claim C8.  [normalizeVersion] removes exactly one leading caret or
    tilde, whatever follows it; it returns a string that starts with neither
    unchanged (so [>=1.0.0], [1.x] and the like pass through); and on every
    version string [v] that is bare ([b], no range prefix) or a bare version
    behind one caret or tilde, normalising twice is the same as normalising
    once. *)
Theorem normalizeVersion_idempotent :
  (forall s, normalizeVersion ("^" ++ s) = s /\ normalizeVersion ("~" ++ s) = s) /\
  (forall v, hasRangePrefix v = false -> normalizeVersion v = v) /\
  (forall b v,
      hasRangePrefix b = false ->
      v = b \/ v = ("^" ++ b)%string \/ v = ("~" ++ b)%string ->
      normalizeVersion v = b /\
      normalizeVersion (normalizeVersion v) = normalizeVersion v).
Proof.
  split; [| split].
  - intros s. split; reflexivity.
  - exact normalizeVersion_bare.
  - intros b v Hb [-> | [-> | ->]].
    + rewrite !(normalizeVersion_bare b Hb). auto.
    + change (normalizeVersion ("^" ++ b)) with b.
      rewrite (normalizeVersion_bare b Hb). auto.
    + change (normalizeVersion ("~" ++ b)) with b.
      rewrite (normalizeVersion_bare b Hb). auto.
Qed.

Lemma normalizeVersion_idempotent_witness :
  normalizeVersion "^1.2.3" = "1.2.3" /\
  normalizeVersion (normalizeVersion "^1.2.3") = normalizeVersion "^1.2.3".
Proof.
  destruct normalizeVersion_idempotent as [_ [_ H]].
  apply (H "1.2.3" "^1.2.3").
  - reflexivity.
  - right. left. reflexivity.
Defined.

(** Only one prefix character is removed, so a doubled prefix takes two
    passes. *)
Example normalizeVersion_doubled_prefix :
  normalizeVersion "^~1.2.3" = "~1.2.3" /\
  normalizeVersion (normalizeVersion "^~1.2.3") = "1.2.3".
Proof. split; reflexivity. Qed.

(** ** Repository URL *)

Lemma convertSshUrlToHttps_ssh (rest : string) :
  convertSshUrlToHttps ("ssh://git@github.com/" ++ rest) =
  ("https://github.com/" ++ rest)%string.
Proof.
  unfold convertSshUrlToHttps.
  rewrite startsWith_refl_app. apply replace_prefix.
Qed.

Lemma convertSshUrlToHttps_scp (rest : string) :
  convertSshUrlToHttps ("git@github.com:" ++ rest) =
  ("https://github.com/" ++ rest)%string.
Proof.
  unfold convertSshUrlToHttps.
  replace (JS.startsWith ("git@github.com:" ++ rest) "ssh://git@github.com/")
    with false by reflexivity.
  rewrite startsWith_refl_app. apply replace_prefix.
Qed.

Lemma convertSshUrlToHttps_git (rest : string) :
  convertSshUrlToHttps ("git://github.com/" ++ rest) =
  ("https://github.com/" ++ rest)%string.
Proof.
  unfold convertSshUrlToHttps.
  replace (JS.startsWith ("git://github.com/" ++ rest) "ssh://git@github.com/")
    with false by reflexivity.
  replace (JS.startsWith ("git://github.com/" ++ rest) "git@github.com:")
    with false by reflexivity.
  rewrite startsWith_refl_app. apply replace_prefix.
Qed.

Lemma convertSshUrlToHttps_other (s : string) :
  JS.startsWith s "ssh://git@github.com/" = false ->
  JS.startsWith s "git@github.com:" = false ->
  JS.startsWith s "git://github.com/" = false ->
  convertSshUrlToHttps s = s.
Proof.
  unfold convertSshUrlToHttps. intros -> -> ->. reflexivity.
Qed.

(** The two markers around a body that contains neither of them. *)
Lemma strip_markers (body pre suf : string) :
  JS.includes body "git+" = false ->
  JS.includes body ".git" = false ->
  pre = "" \/ pre = "git+" ->
  suf = "" \/ suf = ".git" ->
  JS.replace (JS.replace (pre ++ body ++ suf) "git+" "") ".git" "" = body.
Proof.
  intros Hplus Hdot Hpre Hsuf.
  assert (Hsecond : JS.replace (body ++ suf) ".git" "" = body).
  { destruct Hsuf as [-> | ->].
    - replace (body ++ "")%string with body
        by (clear; induction body; simpl; congruence).
      apply replace_absent, Hdot.
    - apply replace_trailing_dotgit, Hdot. }
  destruct Hpre as [-> | ->].
  - change ("" ++ body ++ suf)%string with (body ++ suf)%string.
    rewrite (replace_absent (body ++ suf) "git+" ""); [exact Hsecond |].
    destruct Hsuf as [-> | ->].
    + replace (body ++ "")%string with body
        by (clear; induction body; simpl; congruence).
      exact Hplus.
    + apply includes_gitplus_app, Hplus.
  - rewrite (replace_prefix "git+" "" (body ++ suf)). exact Hsecond.
Qed.

(** Claim C7, as the program has it.  For a repository URL made of a body
    that contains neither ["git+"] nor [".git"], with or without a leading
    ["git+"] and with or without a trailing [".git"], the prepared URL is
    the body with the transport rewritten; the three transports are
    rewritten for the host [github.com] only, to [https://github.com/...];
    a body that starts with none of the three [github.com] prefixes (the
    same transports on another host included) is returned unchanged. *)
Theorem cleanRepositoryUrl_github :
  forall body pre suf : string,
    JS.includes body "git+" = false ->
    JS.includes body ".git" = false ->
    pre = "" \/ pre = "git+" ->
    suf = "" \/ suf = ".git" ->
    cleanRepositoryUrl (pre ++ body ++ suf) = convertSshUrlToHttps body /\
    (forall rest, body = ("ssh://git@github.com/" ++ rest)%string ->
       convertSshUrlToHttps body = ("https://github.com/" ++ rest)%string) /\
    (forall rest, body = ("git@github.com:" ++ rest)%string ->
       convertSshUrlToHttps body = ("https://github.com/" ++ rest)%string) /\
    (forall rest, body = ("git://github.com/" ++ rest)%string ->
       convertSshUrlToHttps body = ("https://github.com/" ++ rest)%string) /\
    (JS.startsWith body "ssh://git@github.com/" = false ->
     JS.startsWith body "git@github.com:" = false ->
     JS.startsWith body "git://github.com/" = false ->
     convertSshUrlToHttps body = body).
Proof.
  intros body pre suf Hplus Hdot Hpre Hsuf.
  split; [| split; [| split; [| split]]].
  - unfold cleanRepositoryUrl.
    rewrite (strip_markers body pre suf Hplus Hdot Hpre Hsuf). reflexivity.
  - intros rest ->. apply convertSshUrlToHttps_ssh.
  - intros rest ->. apply convertSshUrlToHttps_scp.
  - intros rest ->. apply convertSshUrlToHttps_git.
  - apply convertSshUrlToHttps_other.
Qed.

Lemma cleanRepositoryUrl_github_witness :
  cleanRepositoryUrl "git+ssh://git@github.com/acme/widget.git" =
  "https://github.com/acme/widget".
Proof.
  destruct (cleanRepositoryUrl_github
              "ssh://git@github.com/acme/widget" "git+" ".git"
              eq_refl eq_refl (or_intror eq_refl) (or_intror eq_refl))
    as [Hclean [Hssh _]].
  change ("git+ssh://git@github.com/acme/widget.git")
    with ("git+" ++ "ssh://git@github.com/acme/widget" ++ ".git")%string.
  rewrite Hclean. apply (Hssh "acme/widget"). reflexivity.
Defined.

(** The same transports on another host are not rewritten. *)
Lemma cleanRepositoryUrl_other_host :
  cleanRepositoryUrl "git+ssh://git@gitlab.com/acme/widget.git" =
    "ssh://git@gitlab.com/acme/widget" /\
  cleanRepositoryUrl "git@gitlab.com:acme/widget.git" =
    "git@gitlab.com:acme/widget" /\
  cleanRepositoryUrl "git://gitlab.com/acme/widget.git" =
    "git://gitlab.com/acme/widget" /\
  cleanRepositoryUrl "git+ssh://git@gitlab.com/acme/widget.git" <>
    "https://gitlab.com/acme/widget".
Proof.
  repeat split; try reflexivity. vm_compute. discriminate.
Qed.

(** The markers are removed at their first occurrence, wherever it is. *)
Example cleanRepositoryUrl_inner_marker :
  cleanRepositoryUrl "https://github.com/acme/acme.github.io.git" =
  "https://github.com/acme/acmehub.io.git".
Proof. reflexivity. Qed.

(** ** Documentation URL *)

Section DocUrl.

Variable releasesGet : string -> option nat.

Lemma checkReleases_endpoint (repoUrl : string) :
  checkReleases releasesGet repoUrl =
  match releasesGet (releasesEndpoint repoUrl) with
  | Some n => (0 <? n)%nat
  | None => false
  end.
Proof. reflexivity. Qed.

Lemma resolveDocUrl_with_repo (name : string) (info : PkgInfo) (u : string) :
  repositoryUrl info = Some u ->
  cleanRepositoryUrl u <> "" ->
  resolveDocUrl releasesGet name info =
  if checkReleases releasesGet (cleanRepositoryUrl u)
  then (cleanRepositoryUrl u ++ "/releases")%string
  else npmVersionsUrl name.
Proof.
  intros Hu Hclean. unfold resolveDocUrl. rewrite Hu.
  assert (Htruthy : JS.truthy u = true).
  { apply truthy_true. intros ->. apply Hclean. reflexivity. }
  rewrite Htruthy.
  rewrite (proj2 (truthy_true _) Hclean). reflexivity.
Qed.

Lemma resolveDocUrl_without_repo (name : string) (info : PkgInfo) :
  repositoryUrl info = None \/
  (exists u, repositoryUrl info = Some u /\ cleanRepositoryUrl u = "") ->
  resolveDocUrl releasesGet name info =
  match homepageUrl info with
  | Some h => if JS.truthy h then h else npmVersionsUrl name
  | None => npmVersionsUrl name
  end.
Proof.
  intros H. unfold resolveDocUrl.
  assert (Hrepo : match repositoryUrl info with
                  | Some u => if JS.truthy u then cleanRepositoryUrl u else ""
                  | None => ""
                  end = "").
  { destruct H as [-> | [u [-> Hu]]]; [reflexivity |].
    rewrite Hu. destruct (JS.truthy u); reflexivity. }
  rewrite Hrepo. cbn [JS.truthy String.eqb negb].
  destruct (homepageUrl info) as [h |]; [| reflexivity].
  cbn [JS.truthyOpt]. destruct (JS.truthy h); reflexivity.
Qed.

(** Claim C1, as the program has it.  When the registry info has a
    repository URL whose prepared form is not empty, the documentation URL
    is the releases listing if the probe finds a release, and the npm
    versions page if the probe finds none or fails, whether or not there is
    a homepage.  The homepage is used only when there is no repository URL
    (absent, or empty once prepared) and the homepage is a non-empty string;
    with neither, the npm versions page is used. *)
Theorem resolveDocUrl_chain :
  forall (name : string) (info : PkgInfo),
    (forall u,
        repositoryUrl info = Some u ->
        cleanRepositoryUrl u <> "" ->
        (forall n, releasesGet (releasesEndpoint (cleanRepositoryUrl u)) = Some (S n) ->
           resolveDocUrl releasesGet name info =
           (cleanRepositoryUrl u ++ "/releases")%string) /\
        (releasesGet (releasesEndpoint (cleanRepositoryUrl u)) = Some O \/
         releasesGet (releasesEndpoint (cleanRepositoryUrl u)) = None ->
           resolveDocUrl releasesGet name info = npmVersionsUrl name)) /\
    (repositoryUrl info = None \/
     (exists u, repositoryUrl info = Some u /\ cleanRepositoryUrl u = "") ->
       (forall h, homepageUrl info = Some h -> h <> "" ->
          resolveDocUrl releasesGet name info = h) /\
       (homepageUrl info = None \/ homepageUrl info = Some "" ->
          resolveDocUrl releasesGet name info = npmVersionsUrl name)).
Proof.
  intros name info. split.
  - intros u Hu Hclean.
    rewrite (resolveDocUrl_with_repo name info u Hu Hclean).
    rewrite checkReleases_endpoint. split.
    + intros n ->. reflexivity.
    + intros [-> | ->]; reflexivity.
  - intros Hrepo. rewrite (resolveDocUrl_without_repo name info Hrepo). split.
    + intros h -> Hh. rewrite (proj2 (truthy_true h) Hh). reflexivity.
    + intros [-> | ->]; reflexivity.
Qed.

End DocUrl.

Lemma resolveDocUrl_chain_witness :
  resolveDocUrl (fun _ => Some O) "widget" widgetInfo =
  "https://www.npmjs.com/package/widget?activeTab=versions".
Proof.
  destruct (resolveDocUrl_chain (fun _ => Some O) "widget" widgetInfo)
    as [Hrepo _].
  destruct (Hrepo "git+ssh://git@github.com/acme/widget.git" eq_refl)
    as [_ Hnone].
  - vm_compute. discriminate.
  - apply Hnone. left. reflexivity.
Defined.

(** With a repository, no releases and a homepage, the homepage is not the
    documentation URL; the same when the probe fails. *)
Lemma resolveDocUrl_skips_homepage :
  resolveDocUrl (fun _ => Some O) "widget" widgetInfo <> "https://widget.example" /\
  resolveDocUrl (fun _ => None) "widget" widgetInfo <> "https://widget.example" /\
  resolveDocUrl (fun _ => Some O) "widget" widgetInfo =
    "https://www.npmjs.com/package/widget?activeTab=versions".
Proof.
  repeat split; vm_compute; discriminate.
Qed.

(** ** Property lists *)

Section DictFacts.

Context {V : Type}.

Lemma get_set_same (o : JS.Dict V) (k : string) (v : V) :
  JS.get (JS.set o k v) k = Some v.
Proof.
  induction o as [|[k' v'] o IH]; simpl.
  - rewrite String.eqb_refl. reflexivity.
  - destruct (String.eqb k' k) eqn:E; simpl; rewrite E; auto.
Qed.

Lemma get_set_other (o : JS.Dict V) (k k' : string) (v : V) :
  k <> k' -> JS.get (JS.set o k v) k' = JS.get o k'.
Proof.
  intros Hne. induction o as [|[k0 v0] o IH]; simpl.
  - destruct (String.eqb_spec k k'); [contradiction | reflexivity].
  - destruct (String.eqb_spec k0 k) as [-> | Hk0]; simpl.
    + destruct (String.eqb_spec k k'); [contradiction | reflexivity].
    + destruct (String.eqb k0 k'); auto.
Qed.

Lemma get_Some_In_keys (o : JS.Dict V) (k : string) (v : V) :
  JS.get o k = Some v -> In k (JS.keys o).
Proof.
  induction o as [|[k' v'] o IH]; simpl; [discriminate |].
  destruct (String.eqb_spec k' k); auto.
Qed.

End DictFacts.

Lemma find_snoc {A} (f : A -> bool) (l : list A) (x : A) :
  find f (l ++ [x]) =
  match find f l with
  | Some y => Some y
  | None => if f x then Some x else None
  end.
Proof.
  induction l as [|a l IH]; simpl; [reflexivity |].
  destruct (f a); auto.
Qed.

Lemma find_never {A} (f : A -> bool) (l : list A) :
  (forall x, f x = false) -> find f l = None.
Proof.
  intros H. induction l as [|a l IH]; simpl; [reflexivity |].
  rewrite H. exact IH.
Qed.

(** ** Lockfile resolver *)

Section Resolver.

Variable packageJsonDependencies : JS.Dict string.
Variable parsedYarnLock : Lock.

(** The inner loop on any list of keys. *)
Lemma scan_keys_same (name : string) (ks : list string) (d : JS.Dict string) :
  JS.get
    (fold_left
       (fun deps key =>
          if sameName name (lockedPkgOf key) then
            match JS.get parsedYarnLock key with
            | Some entry => JS.set deps name (version entry)
            | None => deps
            end
          else deps) ks d) name =
  match find (nameMatches parsedYarnLock name) (rev ks) with
  | Some key => versionAt parsedYarnLock key
  | None => JS.get d name
  end.
Proof.
  revert d. induction ks as [|k ks IH]; intros d; simpl; [reflexivity |].
  rewrite IH, find_snoc.
  destruct (find (nameMatches parsedYarnLock name) (rev ks)); [reflexivity |].
  unfold nameMatches, versionAt.
  destruct (sameName name (lockedPkgOf k)); simpl; [| reflexivity].
  destruct (JS.get parsedYarnLock k) as [e |] eqn:E; simpl; [| reflexivity].
  rewrite E. apply get_set_same.
Qed.

Lemma scan_keys_other (name other : string) (ks : list string)
    (d : JS.Dict string) :
  name <> other ->
  JS.get
    (fold_left
       (fun deps key =>
          if sameName name (lockedPkgOf key) then
            match JS.get parsedYarnLock key with
            | Some entry => JS.set deps name (version entry)
            | None => deps
            end
          else deps) ks d) other =
  JS.get d other.
Proof.
  intros Hne. revert d. induction ks as [|k ks IH]; intros d; simpl;
    [reflexivity |].
  rewrite IH.
  destruct (sameName name (lockedPkgOf k)); [| reflexivity].
  destruct (JS.get parsedYarnLock k); [| reflexivity].
  apply get_set_other, Hne.
Qed.

Lemma scanLock_same (name : string) (d : JS.Dict string) :
  JS.get (scanLock parsedYarnLock name d) name =
  match lastMatch parsedYarnLock name with
  | Some v => Some v
  | None => JS.get d name
  end.
Proof.
  unfold scanLock, lastMatch. rewrite scan_keys_same.
  destruct (find _ _) as [key |] eqn:E; [| reflexivity].
  apply find_some in E. destruct E as [_ E].
  unfold nameMatches in E. unfold versionAt.
  destruct (JS.get parsedYarnLock key); [reflexivity |].
  rewrite andb_false_r in E. discriminate.
Qed.

Lemma resolveName_same (name : string) (d : JS.Dict string) :
  JS.get (resolveName packageJsonDependencies parsedYarnLock d name) name =
  match resolvedVersion packageJsonDependencies parsedYarnLock name with
  | Some v => Some v
  | None => JS.get d name
  end.
Proof.
  unfold resolveName, resolvedVersion.
  destruct (JS.get parsedYarnLock _) as [e |].
  - apply get_set_same.
  - apply scanLock_same.
Qed.

Lemma resolveName_other (name other : string) (d : JS.Dict string) :
  name <> other ->
  JS.get (resolveName packageJsonDependencies parsedYarnLock d name) other =
  JS.get d other.
Proof.
  intros Hne. unfold resolveName.
  destruct (JS.get parsedYarnLock _) as [e |].
  - apply get_set_other, Hne.
  - unfold scanLock. apply scan_keys_other, Hne.
Qed.

Lemma resolve_names_absent (name : string) (names : list string)
    (d : JS.Dict string) :
  ~ In name names ->
  JS.get
    (fold_left (resolveName packageJsonDependencies parsedYarnLock) names d)
    name = JS.get d name.
Proof.
  revert d. induction names as [|a names IH]; intros d Hnot; simpl;
    [reflexivity |].
  rewrite IH by (intros H; apply Hnot; right; exact H).
  apply resolveName_other. intros ->. apply Hnot. left. reflexivity.
Qed.

Lemma resolve_names_present (name : string) (names : list string)
    (d : JS.Dict string) :
  In name names ->
  JS.get
    (fold_left (resolveName packageJsonDependencies parsedYarnLock) names d)
    name =
  match resolvedVersion packageJsonDependencies parsedYarnLock name with
  | Some v => Some v
  | None => JS.get d name
  end.
Proof.
  revert d. induction names as [|a names IH]; intros d Hin; simpl;
    [contradiction |].
  destruct (in_dec string_dec name names) as [Hlater | Hlast].
  - rewrite (IH _ Hlater).
    destruct (resolvedVersion _ _ name) eqn:E; [reflexivity |].
    destruct (string_dec a name) as [-> | Hne].
    + rewrite resolveName_same, E. reflexivity.
    + apply resolveName_other, Hne.
  - destruct Hin as [-> | Hin]; [| contradiction].
    rewrite (resolve_names_absent _ _ _ Hlast). apply resolveName_same.
Qed.

End Resolver.

(** What the resolver stores for a declared name. *)
Lemma resolveLock_get (packageJsonDependencies : JS.Dict string)
    (parsedYarnLock : Lock) (name range : string) :
  JS.get packageJsonDependencies name = Some range ->
  JS.get (resolveLock packageJsonDependencies parsedYarnLock) name =
  resolvedVersion packageJsonDependencies parsedYarnLock name.
Proof.
  intros Hrange. unfold resolveLock.
  rewrite resolve_names_present by (eapply get_Some_In_keys; exact Hrange).
  destruct (resolvedVersion _ _ name); reflexivity.
Qed.

(** Claim C2, as the program has it.  For a declared name with its declared
    range, the resolver stores the version under the exact compound key
    [name@range] when the lockfile has that key; otherwise it visits every
    lock entry, compares the first non-empty segment of the key split on
    ['@'] with the name, and ends with the version of the last matching
    entry in property order (nothing is stored when no entry matches). *)
Theorem resolveLock_exact_then_last :
  forall (packageJsonDependencies : JS.Dict string) (parsedYarnLock : Lock)
         (name range : string),
    JS.get packageJsonDependencies name = Some range ->
    JS.get (resolveLock packageJsonDependencies parsedYarnLock) name =
    match JS.get parsedYarnLock (name ++ "@" ++ range) with
    | Some entry => Some (version entry)
    | None => lastMatch parsedYarnLock name
    end.
Proof.
  intros decl lock name range Hrange.
  rewrite (resolveLock_get decl lock name range Hrange).
  unfold resolvedVersion, dependencyKeyOf. rewrite Hrange. reflexivity.
Qed.

Lemma resolveLock_exact_then_last_witness :
  JS.get (resolveLock widgetManifest widgetLockTwice) "widget" = Some "1.3.0".
Proof.
  rewrite (resolveLock_exact_then_last widgetManifest widgetLockTwice
             "widget" "^1.2.0" eq_refl).
  reflexivity.
Defined.

(** With two entries for the name and no exact key, the stored version is
    not the one of the first matching entry. *)
Lemma resolveLock_not_first_match :
  JS.get widgetLockTwice "widget@^1.2.0" = None /\
  firstMatch widgetLockTwice "widget" = Some "1.2.5" /\
  JS.get (resolveLock widgetManifest widgetLockTwice) "widget" = Some "1.3.0" /\
  JS.get (resolveLock widgetManifest widgetLockTwice) "widget" <>
    firstMatch widgetLockTwice "widget".
Proof.
  repeat split; vm_compute; discriminate.
Qed.

(** The lockfile fallback scenario: a single entry under another range. *)
Example resolveLock_fallback_scan :
  JS.get widgetLock "widget@^1.2.0" = None /\
  resolveLock widgetManifest widgetLock = [("widget", "1.2.5")].
Proof. split; reflexivity. Qed.

(** ** Scoped packages *)

Lemma split_cons (s : string) (sep : ascii) :
  exists seg segs, JS.split s sep = seg :: segs.
Proof.
  induction s as [|c s [seg [segs IH]]]; simpl.
  - eauto.
  - destruct (Ascii.eqb c sep); [eauto |]. rewrite IH. eauto.
Qed.

(** No segment of a split starts with the separator. *)
Lemma split_segment_head (s : string) (sep : ascii) :
  Forall (fun seg => JS.startsWith seg (String sep "") = false)
    (JS.split s sep).
Proof.
  induction s as [|c s IH]; simpl.
  - repeat constructor.
  - destruct (Ascii.eqb c sep) eqn:E.
    + constructor; [reflexivity | exact IH].
    + destruct (JS.split s sep) as [|seg segs].
      * constructor; [| constructor].
        cbn [JS.startsWith]. rewrite Ascii.eqb_sym, E. reflexivity.
      * inversion IH; subst. constructor; [| assumption].
        cbn [JS.startsWith]. rewrite Ascii.eqb_sym, E. reflexivity.
Qed.

Lemma lockedPkgOf_head (key l : string) :
  lockedPkgOf key = Some l -> JS.startsWith l "@" = false.
Proof.
  unfold lockedPkgOf. intros H.
  assert (Hin : In l (filter JS.truthy (JS.split key "@"%char))).
  { destruct (filter JS.truthy (JS.split key "@"%char)); simpl in H;
      [discriminate |]. injection H as ->. left. reflexivity. }
  apply filter_In in Hin. destruct Hin as [Hin _].
  pose proof (split_segment_head key "@"%char) as Hall.
  rewrite Forall_forall in Hall. exact (Hall l Hin).
Qed.

Lemma scoped_never_sameName (name key : string) :
  JS.startsWith name "@" = true -> sameName name (lockedPkgOf key) = false.
Proof.
  intros Hscoped. unfold sameName.
  destruct (lockedPkgOf key) as [l |] eqn:E; [| reflexivity].
  destruct (String.eqb_spec name l) as [-> |]; [| reflexivity].
  rewrite (lockedPkgOf_head key l E) in Hscoped. discriminate.
Qed.

(** A key splits at the first separator after a part without separator. *)
Lemma split_app_sep (part rest : string) (sep : ascii) :
  JS.includes part (String sep "") = false ->
  JS.split (part ++ String sep rest) sep = part :: JS.split rest sep.
Proof.
  induction part as [|c part IH]; intros H.
  - simpl. rewrite Ascii.eqb_refl. reflexivity.
  - pose proof (includes_head _ _ H) as Hc. cbn [JS.startsWith] in Hc.
    cbn [append JS.split].
    rewrite Ascii.eqb_sym.
    destruct (Ascii.eqb sep c).
    + destruct part; discriminate Hc.
    + rewrite (IH (includes_tail _ _ _ H)). reflexivity.
Qed.

(** Claim C10.  For a declared name that begins with ['@']: no lock key has
    it as its name part, for the name part of a key never begins with ['@']
    (for the key of a scoped package, [@scope/pkg@range], it is
    [scope/pkg]); the scan stores nothing for the name; and the resolver
    stores for it exactly the version under the exact compound key, nothing
    when the lockfile lacks that key. *)
Theorem scoped_name_exact_only :
  forall name : string,
    JS.startsWith name "@" = true ->
    (forall key, sameName name (lockedPkgOf key) = false) /\
    (forall scoped range,
        scoped <> "" -> JS.includes scoped "@" = false ->
        lockedPkgOf ("@" ++ scoped ++ "@" ++ range) = Some scoped) /\
    (forall parsedYarnLock, lastMatch parsedYarnLock name = None) /\
    (forall parsedYarnLock dependencies,
        JS.get (scanLock parsedYarnLock name dependencies) name =
        JS.get dependencies name) /\
    (forall packageJsonDependencies parsedYarnLock range,
        JS.get packageJsonDependencies name = Some range ->
        JS.get (resolveLock packageJsonDependencies parsedYarnLock) name =
        versionAt parsedYarnLock (name ++ "@" ++ range)).
Proof.
  intros name Hscoped.
  assert (Hnever : forall key, sameName name (lockedPkgOf key) = false)
    by (intros key; apply scoped_never_sameName, Hscoped).
  assert (Hlast : forall lock, lastMatch lock name = None).
  { intros lock. unfold lastMatch. rewrite find_never; [reflexivity |].
    intros key. unfold nameMatches. rewrite Hnever. reflexivity. }
  split; [exact Hnever |]. split; [| split; [exact Hlast | split]].
  - intros scoped range Hne Hno. unfold lockedPkgOf.
    change ("@" ++ scoped ++ "@" ++ range)%string
      with (String "@" (scoped ++ String "@" range)).
    cbn [JS.split]. rewrite Ascii.eqb_refl.
    rewrite (split_app_sep scoped range "@"%char Hno).
    cbn [filter JS.truthy String.eqb negb].
    rewrite (proj2 (truthy_true scoped) Hne). reflexivity.
  - intros lock d. rewrite scanLock_same, Hlast. reflexivity.
  - intros decl lock range Hrange.
    rewrite (resolveLock_get decl lock name range Hrange).
    unfold resolvedVersion, dependencyKeyOf, versionAt. rewrite Hrange.
    destruct (JS.get lock _); [reflexivity | apply Hlast].
Qed.

Lemma scoped_name_exact_only_witness :
  lockedPkgOf "@babel/core@^7.1.0" = Some "babel/core" /\
  JS.get (resolveLock babelManifest babelLock) "@babel/core" = None.
Proof.
  destruct (scoped_name_exact_only "@babel/core" eq_refl)
    as [_ [Hkey [_ [_ Hexact]]]].
  split.
  - apply (Hkey "babel/core" "^7.1.0"); [discriminate | reflexivity].
  - rewrite (Hexact babelManifest babelLock "^7.0.0" eq_refl). reflexivity.
Defined.

(** ** Numbers *)

Lemma number_safe (x : Z) : safeInteger x -> JS.number x = x.
Proof.
  unfold safeInteger, JS.number, JS.nearest. intros H.
  destruct (Z.ltb_spec (Z.abs x) (2 ^ 53)) as [_ | Hge]; [| lia].
  destruct x; reflexivity.
Qed.

Lemma number_opp (x : Z) : JS.number (- x) = (- JS.number x)%Z.
Proof.
  unfold JS.number. rewrite Z.sgn_opp, Z.abs_opp. ring.
Qed.

(** From 2^53 on the nearest binary64 value is at least 2^53. *)
Lemma nearest_large (a : Z) : (2 ^ 53 <= a -> 2 ^ 53 <= JS.nearest a)%Z.
Proof.
  intros Ha. unfold JS.nearest.
  destruct (Z.ltb_spec a (2 ^ 53)) as [Hlt | _]; [lia |].
  assert (Hlog : (53 <= Z.log2 a)%Z) by (apply Z.log2_le_pow2; lia).
  set (e := (Z.log2 a - 52)%Z).
  assert (He : (1 <= e)%Z) by (unfold e; lia).
  assert (Hq : (2 <= 2 ^ e)%Z).
  { change 2%Z with (2 ^ 1)%Z at 1. apply Z.pow_le_mono_r; lia. }
  assert (Hlow : (2 ^ 52 <= a / 2 ^ e)%Z).
  { apply Z.div_le_lower_bound; [lia |].
    rewrite <- Z.pow_add_r by lia.
    replace (e + 52)%Z with (Z.log2 a) by (unfold e; lia).
    apply Z.log2_spec. lia. }
  cbv zeta.
  assert (Hsig : forall n, (a / 2 ^ e <= n -> 2 ^ 53 <= n * 2 ^ e)%Z).
  { intros n Hn. change (2 ^ 53)%Z with (2 ^ 52 * 2)%Z.
    apply Z.mul_le_mono_nonneg; lia. }
  destruct (_ <? _)%Z; [apply Hsig; lia |].
  destruct (_ <? _)%Z; [apply Hsig; lia |].
  destruct (Z.even _); apply Hsig; lia.
Qed.

(** Rounding never crosses an integer of at most 2^53. *)
Lemma number_ge (k x : Z) :
  (0 <= k <= 2 ^ 53 -> k <= x -> k <= JS.number x)%Z.
Proof.
  intros Hk Hx. destruct (Z.ltb_spec (Z.abs x) (2 ^ 53)) as [Hsafe | Hbig].
  - rewrite (number_safe x Hsafe). exact Hx.
  - unfold JS.number. rewrite Z.abs_eq in * by lia.
    rewrite Z.sgn_pos by lia.
    pose proof (nearest_large x Hbig). lia.
Qed.

Lemma number_le (k x : Z) :
  (0 <= k <= 2 ^ 53 -> x <= - k -> JS.number x <= - k)%Z.
Proof.
  intros Hk Hx.
  pose proof (number_ge k (- x) Hk ltac:(lia)) as H.
  rewrite number_opp in H. lia.
Qed.

(** The sign of a number is the sign of the exact result. *)
Lemma number_nonpos (x : Z) : (JS.number x <=? 0)%Z = (x <=? 0)%Z.
Proof.
  destruct (Z.leb_spec x 0) as [Hx | Hx].
  - apply Z.leb_le. apply (number_le 0 x); lia.
  - apply Z.leb_gt. pose proof (number_ge 1 x ltac:(lia) ltac:(lia)). lia.
Qed.

(** ** Version distance and ranking *)

Section Ranking.

Variable semverParse : string -> option SemVer.

Lemma sub_swap (x y : Z) : JS.sub x y = (- JS.sub y x)%Z.
Proof.
  unfold JS.sub. rewrite <- number_opp. f_equal. ring.
Qed.

Lemma mul_opp (x k : Z) : JS.mul (- x) k = (- JS.mul x k)%Z.
Proof.
  unfold JS.mul. rewrite <- number_opp. f_equal. ring.
Qed.

Lemma add_opp (x y : Z) : JS.add (- x) (- y) = (- JS.add x y)%Z.
Proof.
  unfold JS.add. rewrite <- number_opp. f_equal. ring.
Qed.

(** With components of at most eleven decimal digits every operation of
    the computation has a safe integer as its result. *)
Lemma calculateVersionDifference_exact_range (c l : SemVer) :
  elevenDigits c -> elevenDigits l -> exactlyComputed c l.
Proof.
  unfold elevenDigits, exactlyComputed, safeInteger.
  change (10 ^ 11)%Z with 100000000000%Z.
  change (2 ^ 53)%Z with 9007199254740992%Z. lia.
Qed.

(** While every result is a safe integer no operation rounds. *)
Lemma difference_exact (current latest : string) (c l : SemVer) :
  semverParse current = Some c ->
  semverParse latest = Some l ->
  exactlyComputed c l ->
  calculateVersionDifference semverParse current latest =
  ((major l - major c) * 10000 + (minor l - minor c) * 100
   + (patch l - patch c))%Z.
Proof.
  intros Hc Hl [H1 [H2 [H3 [H4 [H5 [H6 H7]]]]]].
  unfold calculateVersionDifference. rewrite Hc, Hl.
  unfold JS.add, JS.mul, JS.sub.
  rewrite (number_safe (major l - major c) H1).
  rewrite (number_safe (minor l - minor c) H2).
  rewrite (number_safe (patch l - patch c) H3).
  rewrite (number_safe _ H4), (number_safe _ H5), (number_safe _ H6).
  apply (number_safe _ H7).
Qed.

(** Claim C3, as the program has it.  When both version strings parse and
    the result of every operation of the computation (the three
    differences, the two products and the two sums) is a safe integer, below
    2^53 in magnitude, the distance is exactly
    [(latest.major - current.major) * 10000
     + (latest.minor - current.minor) * 100
     + (latest.patch - current.patch)];
    this is the case whenever all six components are at most 10^11.  When
    either string does not parse, the distance is [0]. *)
Theorem calculateVersionDifference_formula :
  forall current latest : string,
    (forall c l,
        semverParse current = Some c ->
        semverParse latest = Some l ->
        exactlyComputed c l ->
        calculateVersionDifference semverParse current latest =
        ((major l - major c) * 10000 + (minor l - minor c) * 100
         + (patch l - patch c))%Z) /\
    (forall c l,
        semverParse current = Some c ->
        semverParse latest = Some l ->
        elevenDigits c -> elevenDigits l ->
        calculateVersionDifference semverParse current latest =
        ((major l - major c) * 10000 + (minor l - minor c) * 100
         + (patch l - patch c))%Z) /\
    (semverParse current = None \/ semverParse latest = None ->
     calculateVersionDifference semverParse current latest = 0%Z).
Proof.
  intros current latest. split; [| split].
  - intros c l Hc Hl Hexact. exact (difference_exact _ _ c l Hc Hl Hexact).
  - intros c l Hc Hl Hcb Hlb. apply (difference_exact _ _ c l Hc Hl).
    exact (calculateVersionDifference_exact_range c l Hcb Hlb).
  - unfold calculateVersionDifference. intros [-> | ->]; [reflexivity |].
    destruct (semverParse current); reflexivity.
Qed.

(** The comparator is not positive exactly when the second record is not
    farther than the first. *)
Lemma compareUpdates_leb (x y : UpdateRecord) :
  (compareUpdates semverParse x y <=? 0)%Z =
  (distance semverParse y <=? distance semverParse x)%Z.
Proof.
  unfold compareUpdates, JS.sub. rewrite number_nonpos.
  destruct (Z.leb_spec (distance semverParse y - distance semverParse x) 0),
    (Z.leb_spec (distance semverParse y) (distance semverParse x));
    [reflexivity | lia | lia | reflexivity].
Qed.

Lemma sortInsert_Permutation (x : UpdateRecord) (l : list UpdateRecord) :
  Permutation (JS.sortInsert (compareUpdates semverParse) x l) (x :: l).
Proof.
  induction l as [|y l IH]; simpl; [apply Permutation_refl |].
  destruct (compareUpdates semverParse x y <=? 0)%Z.
  - apply Permutation_refl.
  - apply Permutation_trans with (y :: x :: l).
    + apply perm_skip, IH.
    + apply perm_swap.
Qed.

Lemma sortUpdates_Permutation (updates : list UpdateRecord) :
  Permutation (sortUpdates semverParse updates) updates.
Proof.
  unfold sortUpdates. induction updates as [|x l IH]; simpl.
  - apply Permutation_refl.
  - eapply Permutation_trans; [apply sortInsert_Permutation |].
    apply perm_skip, IH.
Qed.

Lemma sortInsert_sorted (x : UpdateRecord) (l : list UpdateRecord) :
  StronglySorted (descending semverParse) l ->
  StronglySorted (descending semverParse)
    (JS.sortInsert (compareUpdates semverParse) x l).
Proof.
  induction 1 as [|y l Hsorted IH Hall]; simpl.
  - repeat constructor.
  - rewrite compareUpdates_leb.
    destruct (Z.leb_spec (distance semverParse y) (distance semverParse x))
      as [Hle | Hgt].
    + constructor; [constructor; assumption |].
      constructor; [unfold descending; lia |].
      eapply Forall_impl; [| exact Hall].
      unfold descending. intros z Hz. lia.
    + constructor; [exact IH |].
      eapply Permutation_Forall;
        [apply Permutation_sym, sortInsert_Permutation |].
      constructor; [unfold descending; lia | exact Hall].
Qed.

Lemma sortUpdates_sorted (updates : list UpdateRecord) :
  StronglySorted (descending semverParse) (sortUpdates semverParse updates).
Proof.
  unfold sortUpdates. induction updates as [|x l IH]; simpl.
  - constructor.
  - apply sortInsert_sorted, IH.
Qed.

(** Inserting a record does not reorder the records at any one distance. *)
Lemma sortInsert_atDistance (d : Z) (x : UpdateRecord) (l : list UpdateRecord) :
  atDistance semverParse d (JS.sortInsert (compareUpdates semverParse) x l) =
  atDistance semverParse d (x :: l).
Proof.
  unfold atDistance. induction l as [|y l IH]; [reflexivity |].
  cbn [JS.sortInsert]. rewrite compareUpdates_leb.
  destruct (Z.leb_spec (distance semverParse y) (distance semverParse x))
    as [Hle | Hgt]; [reflexivity |].
  cbn [filter] in *. rewrite IH.
  destruct (Z.eqb_spec (distance semverParse x) d) as [Hx | Hx];
    destruct (Z.eqb_spec (distance semverParse y) d) as [Hy | Hy];
    try reflexivity.
  lia.
Qed.

Lemma sortUpdates_atDistance (d : Z) (updates : list UpdateRecord) :
  atDistance semverParse d (sortUpdates semverParse updates) =
  atDistance semverParse d updates.
Proof.
  unfold sortUpdates. induction updates as [|x l IH]; [reflexivity |].
  cbn [JS.sort]. rewrite sortInsert_atDistance.
  unfold atDistance in *. cbn [filter]. rewrite IH. reflexivity.
Qed.

(** Claim C4.  [sortUpdates] returns a rearrangement of its input in which
    every record comes before all records of smaller distance (distances
    never increase along the output), and the records of any one distance
    are in their input order; records at distances 5, 20000 and 100 come
    out in the order 20000, 100, 5. *)
Theorem sortUpdates_descending_stable :
  forall updates : list UpdateRecord,
    Permutation (sortUpdates semverParse updates) updates /\
    StronglySorted (descending semverParse) (sortUpdates semverParse updates) /\
    (forall d, atDistance semverParse d (sortUpdates semverParse updates) =
               atDistance semverParse d updates) /\
    (forall a b c,
        distance semverParse a = 5%Z ->
        distance semverParse b = 20000%Z ->
        distance semverParse c = 100%Z ->
        sortUpdates semverParse [a; b; c] = [b; c; a]).
Proof.
  intros updates. split; [apply sortUpdates_Permutation |].
  split; [apply sortUpdates_sorted |].
  split; [intros d; apply sortUpdates_atDistance |].
  intros a b c Ha Hb Hc. unfold sortUpdates.
  cbn [JS.sort JS.sortInsert]. rewrite (compareUpdates_leb b c), Hb, Hc.
  change (100 <=? 20000)%Z with true.
  cbn [JS.sortInsert]. rewrite !compareUpdates_leb, Ha, Hb, Hc. reflexivity.
Qed.

End Ranking.

Lemma calculateVersionDifference_formula_witness :
  calculateVersionDifference plainSemver "1.2.3" "2.0.1" = 9798%Z /\
  calculateVersionDifference plainSemver "latest" "2.0.1" = 0%Z.
Proof.
  split.
  - destruct (calculateVersionDifference_formula plainSemver "1.2.3" "2.0.1")
      as [Hexact _].
    rewrite (Hexact {| major := 1; minor := 2; patch := 3 |}
                    {| major := 2; minor := 0; patch := 1 |}
                    eq_refl eq_refl).
    + reflexivity.
    + unfold exactlyComputed, safeInteger. simpl. lia.
  - destruct (calculateVersionDifference_formula plainSemver "latest" "2.0.1")
      as [_ [_ Hnone]].
    apply Hnone. left. reflexivity.
Defined.

(** Records whose distances round to the same number are a tie for the
    comparator and keep their input order. *)
Example sortUpdates_rounded_tie :
  map (distance plainSemver) [hugeJump "0"; hugeJump "1"; hugeJump "2"] =
    [90071992547409903616; 90071992547409903616; 90071992547409903616]%Z /\
  sortUpdates plainSemver [hugeJump "0"; hugeJump "1"; hugeJump "2"] =
    [hugeJump "0"; hugeJump "1"; hugeJump "2"].
Proof. split; vm_compute; reflexivity. Qed.

(** Past 2^53 the products and sums are rounded: the largest major number
    [semver] accepts, against zero. *)
Lemma calculateVersionDifference_rounds :
  plainSemver "0.0.0" = Some {| major := 0; minor := 0; patch := 0 |} /\
  plainSemver "9007199254740991.0.0" =
    Some {| major := 9007199254740991; minor := 0; patch := 0 |} /\
  calculateVersionDifference plainSemver "0.0.0" "9007199254740991.0.0" =
    90071992547409903616%Z /\
  calculateVersionDifference plainSemver "0.0.0" "9007199254740991.0.0" <>
    ((9007199254740991 - 0) * 10000 + (0 - 0) * 100 + (0 - 0))%Z.
Proof.
  repeat split; vm_compute; discriminate.
Qed.

Lemma sortUpdates_descending_stable_witness :
  sortUpdates plainSemver [patchJump; majorJump; minorJump] =
    [majorJump; minorJump; patchJump] /\
  map (distance plainSemver)
    (sortUpdates plainSemver [patchJump; majorJump; minorJump]) =
    [20000; 100; 5]%Z.
Proof.
  destruct (sortUpdates_descending_stable plainSemver
              [patchJump; majorJump; minorJump]) as [_ [_ [_ H]]].
  rewrite (H patchJump majorJump minorJump eq_refl eq_refl eq_refl).
  split; reflexivity.
Defined.

(** Two records at the same distance stay in their input order. *)
Example sortUpdates_tie :
  sortUpdates plainSemver [minorJump; patchJump; otherMinorJump; majorJump] =
    [majorJump; minorJump; otherMinorJump; patchJump] /\
  sortUpdates plainSemver [otherMinorJump; patchJump; minorJump; majorJump] =
    [majorJump; otherMinorJump; minorJump; patchJump].
Proof. split; reflexivity. Qed.

(** ** Priority partition *)

Lemma StronglySorted_filter {A} (R : A -> A -> Prop) (f : A -> bool)
    (l : list A) :
  StronglySorted R l -> StronglySorted R (filter f l).
Proof.
  induction 1 as [|x l Hsorted IH Hall]; simpl; [constructor |].
  destruct (f x); [| exact IH].
  constructor; [exact IH |].
  rewrite Forall_forall in *. intros y Hy.
  apply filter_In in Hy. apply Hall, Hy.
Qed.

Lemma partition_Permutation {A} (f : A -> bool) (l : list A) :
  Permutation (filter f l ++ filter (fun x => negb (f x)) l) l.
Proof.
  induction l as [|x l IH]; simpl; [constructor |].
  destruct (f x); simpl.
  - apply perm_skip, IH.
  - apply Permutation_sym, Permutation_cons_app, Permutation_sym, IH.
Qed.

(** Claim C5.  The two filters split the sorted records into those whose
    name is a priority package and the rest: a record is in the input
    exactly when it is in one of the two lists, no record is in both, the
    two lists together are a rearrangement of the input (each occurrence
    goes to exactly one of them), and each list is ordered as the input
    was. *)
Theorem partition_complete_disjoint :
  forall (priorityPackages : list string) (sorted : list UpdateRecord),
    (forall u, In u (prioritized priorityPackages sorted) <->
               In u sorted /\ JS.arrayIncludes priorityPackages (pkg u) = true) /\
    (forall u, In u (others priorityPackages sorted) <->
               In u sorted /\ JS.arrayIncludes priorityPackages (pkg u) = false) /\
    (forall u, In u sorted <->
               In u (prioritized priorityPackages sorted) \/
               In u (others priorityPackages sorted)) /\
    (forall u, ~ (In u (prioritized priorityPackages sorted) /\
                  In u (others priorityPackages sorted))) /\
    Permutation
      (prioritized priorityPackages sorted ++ others priorityPackages sorted)
      sorted /\
    (forall R : UpdateRecord -> UpdateRecord -> Prop,
        StronglySorted R sorted ->
        StronglySorted R (prioritized priorityPackages sorted) /\
        StronglySorted R (others priorityPackages sorted)).
Proof.
  intros pp sorted. unfold prioritized, others.
  assert (Hp : forall u,
             In u (filter (fun x => JS.arrayIncludes pp (pkg x)) sorted) <->
             In u sorted /\ JS.arrayIncludes pp (pkg u) = true)
    by (intros u; apply filter_In).
  assert (Ho : forall u,
             In u (filter (fun x => negb (JS.arrayIncludes pp (pkg x))) sorted) <->
             In u sorted /\ JS.arrayIncludes pp (pkg u) = false).
  { intros u. rewrite filter_In, negb_true_iff. reflexivity. }
  split; [exact Hp |]. split; [exact Ho |].
  split; [| split; [| split]].
  - intros u. rewrite Hp, Ho.
    destruct (JS.arrayIncludes pp (pkg u)); intuition congruence.
  - intros u. rewrite Hp, Ho. intros [[_ H1] [_ H2]]. congruence.
  - apply (partition_Permutation (fun x => JS.arrayIncludes pp (pkg x))).
  - intros R H. split; apply StronglySorted_filter, H.
Qed.

Lemma partition_complete_disjoint_witness :
  StronglySorted (descending plainSemver)
    (prioritized ["react"; "axios"; "express"]
       [majorJump; minorJump; otherMinorJump; patchJump]) /\
  StronglySorted (descending plainSemver)
    (others ["react"; "axios"; "express"]
       [majorJump; minorJump; otherMinorJump; patchJump]).
Proof.
  destruct (partition_complete_disjoint ["react"; "axios"; "express"]
              [majorJump; minorJump; otherMinorJump; patchJump])
    as [_ [_ [_ [_ [_ H]]]]].
  apply H.
  repeat constructor; unfold descending; vm_compute; discriminate.
Defined.

Example partition_priority :
  prioritized ["react"; "axios"; "express"]
    [majorJump; minorJump; otherMinorJump; patchJump] =
    [majorJump; minorJump] /\
  others ["react"; "axios"; "express"]
    [majorJump; minorJump; otherMinorJump; patchJump] =
    [otherMinorJump; patchJump].
Proof. split; reflexivity. Qed.

(** ** Update detector *)

Section Detector.

Variable registryGet : string -> option RegistryData.
Variable releasesGet : string -> option nat.

Lemma checkDependency_Some (name current : string) (u : UpdateRecord) :
  checkDependency registryGet releasesGet (name, current) = Some u <->
  exists info,
    getPackageInfo registryGet name = Some info /\
    info_latestVersion info <> normalizeVersion current /\
    u = {| pkg := name;
           currentVersion := normalizeVersion current;
           latestVersion := info_latestVersion info;
           docUrl := resolveDocUrl releasesGet name info |}.
Proof.
  unfold checkDependency.
  destruct (getPackageInfo registryGet name) as [info |].
  - destruct (String.eqb_spec (info_latestVersion info)
                (normalizeVersion current)) as [Heq | Hne]; simpl.
    + split; [discriminate |].
      intros [info' [Hinfo [Hne _]]]. injection Hinfo as <-. contradiction.
    + split.
      * intros H. injection H as <-. exists info. auto.
      * intros [info' [Hinfo [_ ->]]]. injection Hinfo as <-. reflexivity.
  - split; [discriminate |]. intros [info [Hinfo _]]. discriminate.
Qed.

Lemma getDependencyUpdates_In (dependencies : JS.Dict string)
    (u : UpdateRecord) :
  In u (getDependencyUpdates registryGet releasesGet dependencies) <->
  exists entry,
    In entry dependencies /\
    checkDependency registryGet releasesGet entry = Some u.
Proof.
  induction dependencies as [|entry rest IH]; simpl.
  - split; [contradiction | intros [e [[] _]]].
  - destruct (checkDependency registryGet releasesGet entry) as [u' |] eqn:E;
      simpl; rewrite IH; split.
    + intros [<- | [e [Hin He]]]; eauto.
    + intros [e [[<- | Hin] He]]; [left; congruence | right; eauto].
    + intros [e [Hin He]]; eauto.
    + intros [e [[<- | Hin] He]]; [congruence | eauto].
Qed.

Lemma getDependencyUpdates_app (before after : JS.Dict string) :
  getDependencyUpdates registryGet releasesGet (before ++ after) =
  getDependencyUpdates registryGet releasesGet before ++
  getDependencyUpdates registryGet releasesGet after.
Proof.
  induction before as [|entry rest IH]; simpl; [reflexivity |].
  destruct (checkDependency registryGet releasesGet entry); simpl;
    rewrite IH; reflexivity.
Qed.

(** Claim C6.  A record is emitted exactly for the dependencies whose
    registry lookup succeeded with a latest version different from the
    normalised current version, and it carries that name and those two
    versions; hence the two versions of an emitted record differ.  A
    request that throws makes the lookup fail; a dependency whose lookup
    failed adds nothing and the other dependencies are processed as without
    it; when every dependency that could be looked up is current, nothing is
    emitted. *)
Theorem getDependencyUpdates_emits :
  forall dependencies : JS.Dict string,
    (forall u,
        In u (getDependencyUpdates registryGet releasesGet dependencies) <->
        exists name current info,
          In (name, current) dependencies /\
          getPackageInfo registryGet name = Some info /\
          info_latestVersion info <> normalizeVersion current /\
          u = {| pkg := name;
                 currentVersion := normalizeVersion current;
                 latestVersion := info_latestVersion info;
                 docUrl := resolveDocUrl releasesGet name info |}) /\
    (forall u,
        In u (getDependencyUpdates registryGet releasesGet dependencies) ->
        currentVersion u <> latestVersion u) /\
    (forall name,
        registryGet ("https://registry.npmjs.org/" ++ name)%string = None ->
        getPackageInfo registryGet name = None) /\
    (forall before name current after,
        dependencies = before ++ (name, current) :: after ->
        getPackageInfo registryGet name = None ->
        getDependencyUpdates registryGet releasesGet dependencies =
        getDependencyUpdates registryGet releasesGet before ++
        getDependencyUpdates registryGet releasesGet after) /\
    ((forall name current info,
         In (name, current) dependencies ->
         getPackageInfo registryGet name = Some info ->
         info_latestVersion info = normalizeVersion current) ->
     getDependencyUpdates registryGet releasesGet dependencies = []).
Proof.
  intros dependencies.
  assert (Hiff : forall u,
             In u (getDependencyUpdates registryGet releasesGet dependencies) <->
             exists name current info,
               In (name, current) dependencies /\
               getPackageInfo registryGet name = Some info /\
               info_latestVersion info <> normalizeVersion current /\
               u = {| pkg := name;
                      currentVersion := normalizeVersion current;
                      latestVersion := info_latestVersion info;
                      docUrl := resolveDocUrl releasesGet name info |}).
  { intros u. rewrite getDependencyUpdates_In. split.
    - intros [[name current] [Hin He]].
      apply checkDependency_Some in He. destruct He as [info He].
      exists name, current, info. tauto.
    - intros [name [current [info [Hin He]]]].
      exists (name, current). split; [exact Hin |].
      apply checkDependency_Some. exists info. exact He. }
  split; [exact Hiff |]. split; [| split; [| split]].
  - intros u Hu. apply Hiff in Hu.
    destruct Hu as [name [current [info [_ [_ [Hne ->]]]]]].
    simpl. intros Heq. apply Hne. symmetry. exact Heq.
  - intros name Hget. unfold getPackageInfo. rewrite Hget. reflexivity.
  - intros before name current after -> Hfail.
    rewrite getDependencyUpdates_app. simpl.
    unfold checkDependency. rewrite Hfail. reflexivity.
  - intros Hcurrent.
    destruct (getDependencyUpdates registryGet releasesGet dependencies)
      as [|u l] eqn:E; [reflexivity |].
    assert (Hu : In u (u :: l)) by (left; reflexivity).
    apply Hiff in Hu.
    destruct Hu as [name [current [info [Hin [Hinfo [Hne _]]]]]].
    exfalso. apply Hne. eapply Hcurrent; eassumption.
Qed.

End Detector.

Lemma getDependencyUpdates_emits_witness :
  getDependencyUpdates exampleRegistry noReleases exampleDependencies =
    getDependencyUpdates exampleRegistry noReleases [("left-pad", "^1.0.0")] ++
    getDependencyUpdates exampleRegistry noReleases [("react", "^18.0.0")] /\
  getDependencyUpdates exampleRegistry noReleases [("react", "^18.0.0")] = [].
Proof.
  split.
  - destruct (getDependencyUpdates_emits exampleRegistry noReleases
                exampleDependencies) as [_ [_ [_ [Hdrop _]]]].
    apply (Hdrop [("left-pad", "^1.0.0")] "broken" "^1.0.0"
                 [("react", "^18.0.0")]); reflexivity.
  - destruct (getDependencyUpdates_emits exampleRegistry noReleases
                [("react", "^18.0.0")]) as [_ [_ [_ [_ Hcurrent]]]].
    apply Hcurrent. intros name current info [Heq | []] Hinfo.
    injection Heq as <- <-. vm_compute in Hinfo. injection Hinfo as <-.
    reflexivity.
Defined.

Example getDependencyUpdates_example :
  getDependencyUpdates exampleRegistry noReleases exampleDependencies =
  [{| pkg := "left-pad"; currentVersion := "1.0.0"; latestVersion := "1.3.0";
      docUrl := "https://www.npmjs.com/package/left-pad?activeTab=versions" |}].
Proof. reflexivity. Qed.

(** ** Lockfile availability *)

Lemma resolveLock_empty (packageJsonDependencies : JS.Dict string) :
  resolveLock packageJsonDependencies [] = [].
Proof.
  unfold resolveLock.
  generalize (JS.keys packageJsonDependencies). intros names.
  induction names as [|name names IH]; simpl; [reflexivity | exact IH].
Qed.

Section Run.

Variable semverParse : string -> option SemVer.
Variable registryGet : string -> option RegistryData.
Variable releasesGet : string -> option nat.
Variable parseLock : string -> option Lock.

(** Claim C9.  When the lockfile does not exist, or exists and the parser
    throws on it, [getPackagesFromYarnLock] returns [null] and the run
    reports the updates found from the declared versions of the manifest.
    When the lockfile parses, the result is an object, never [null], and
    the run reports from the locked versions; for a lockfile that parses to
    no entries the object is empty and the run reports nothing.  In every
    case the run ends with a report. *)
Theorem lockfile_unavailable_falls_back :
  forall (lockfile : option string) (priorityPackages : list string)
         (packageJsonDependencies : JS.Dict string),
    (lockfile = None \/
     (exists yarnLock, lockfile = Some yarnLock /\ parseLock yarnLock = None) ->
     getPackagesFromYarnLock lockfile parseLock packageJsonDependencies = None /\
     main semverParse registryGet releasesGet parseLock lockfile
       priorityPackages packageJsonDependencies =
     let sorted :=
       sortUpdates semverParse
         (getDependencyUpdates registryGet releasesGet packageJsonDependencies) in
     {| source := FromPackageJson;
        priorityUpdates := prioritized priorityPackages sorted;
        otherUpdates := others priorityPackages sorted |}) /\
    (forall yarnLock parsedYarnLock,
        lockfile = Some yarnLock ->
        parseLock yarnLock = Some parsedYarnLock ->
        getPackagesFromYarnLock lockfile parseLock packageJsonDependencies =
          Some (resolveLock packageJsonDependencies parsedYarnLock) /\
        main semverParse registryGet releasesGet parseLock lockfile
          priorityPackages packageJsonDependencies =
        let sorted :=
          sortUpdates semverParse
            (getDependencyUpdates registryGet releasesGet
               (resolveLock packageJsonDependencies parsedYarnLock)) in
        {| source := FromYarnLock;
           priorityUpdates := prioritized priorityPackages sorted;
           otherUpdates := others priorityPackages sorted |}) /\
    (forall yarnLock,
        lockfile = Some yarnLock ->
        parseLock yarnLock = Some [] ->
        getPackagesFromYarnLock lockfile parseLock packageJsonDependencies =
          Some [] /\
        main semverParse registryGet releasesGet parseLock lockfile
          priorityPackages packageJsonDependencies =
        {| source := FromYarnLock; priorityUpdates := []; otherUpdates := [] |}).
Proof.
  intros lockfile pp decl. split; [| split].
  - intros [-> | [yarnLock [-> Hparse]]]; unfold main; simpl;
      rewrite ?Hparse; split; reflexivity.
  - intros yarnLock parsed -> Hparse. unfold main. simpl. rewrite Hparse.
    split; reflexivity.
  - intros yarnLock -> Hparse. unfold main. simpl. rewrite Hparse.
    rewrite resolveLock_empty. split; reflexivity.
Qed.

End Run.

Lemma lockfile_unavailable_falls_back_witness :
  main plainSemver exampleRegistry noReleases parseThrows (Some "not a lockfile")
    ["react"; "axios"; "express"] exampleDependencies =
  {| source := FromPackageJson;
     priorityUpdates := [];
     otherUpdates :=
       [{| pkg := "left-pad"; currentVersion := "1.0.0";
           latestVersion := "1.3.0";
           docUrl := "https://www.npmjs.com/package/left-pad?activeTab=versions" |}] |}
  /\
  main plainSemver exampleRegistry noReleases parseEmpty (Some "")
    ["react"; "axios"; "express"] exampleDependencies =
  {| source := FromYarnLock; priorityUpdates := []; otherUpdates := [] |}.
Proof.
  split.
  - destruct (lockfile_unavailable_falls_back plainSemver exampleRegistry
                noReleases parseThrows (Some "not a lockfile")
                ["react"; "axios"; "express"] exampleDependencies)
      as [Hfallback _].
    destruct Hfallback as [_ Hmain].
    + right. exists "not a lockfile". split; reflexivity.
    + rewrite Hmain. reflexivity.
  - destruct (lockfile_unavailable_falls_back plainSemver exampleRegistry
                noReleases parseEmpty (Some "")
                ["react"; "axios"; "express"] exampleDependencies)
      as [_ [_ Hempty]].
    destruct (Hempty "" eq_refl eq_refl) as [_ Hmain]. exact Hmain.
Defined.

(** The end-to-end scenario: one declared dependency, no lockfile, an empty
    priority list. *)
Example main_end_to_end :
  main plainSemver exampleRegistry noReleases parseThrows None []
    [("left-pad", "^1.0.0")] =
  {| source := FromPackageJson;
     priorityUpdates := [];
     otherUpdates :=
       [{| pkg := "left-pad"; currentVersion := "1.0.0";
           latestVersion := "1.3.0";
           docUrl := "https://www.npmjs.com/package/left-pad?activeTab=versions" |}] |}.
Proof. reflexivity. Qed.

(** * Further properties of the program *)

(** ** The releases probe *)

Lemma startsWith_decompose (s p : string) :
  JS.startsWith s p = true -> s = (p ++ JS.drop (String.length p) s)%string.
Proof.
  revert s. induction p as [|a p IH]; intros s H.
  - destruct s; reflexivity.
  - destruct s as [|b s]; [discriminate H |].
    cbn [JS.startsWith] in H. apply andb_true_iff in H. destruct H as [Hab Hp].
    apply Ascii.eqb_eq in Hab. subst b.
    cbn [String.length JS.drop append]. rewrite <- (IH s Hp). reflexivity.
Qed.

Lemma convertSshUrlToHttps_web (rest : string) :
  convertSshUrlToHttps ("https://github.com/" ++ rest) =
  ("https://github.com/" ++ rest)%string.
Proof. reflexivity. Qed.

(** [convertSshUrlToHttps] is applied once when the repository URL is
    prepared and once more inside [checkReleases]: the second application
    changes nothing. *)
Theorem convertSshUrlToHttps_idempotent :
  forall sshUrl : string,
    convertSshUrlToHttps (convertSshUrlToHttps sshUrl) =
    convertSshUrlToHttps sshUrl.
Proof.
  intros s.
  destruct (JS.startsWith s "ssh://git@github.com/") eqn:E1.
  { rewrite (startsWith_decompose _ _ E1), convertSshUrlToHttps_ssh.
    apply convertSshUrlToHttps_web. }
  destruct (JS.startsWith s "git@github.com:") eqn:E2.
  { rewrite (startsWith_decompose _ _ E2), convertSshUrlToHttps_scp.
    apply convertSshUrlToHttps_web. }
  destruct (JS.startsWith s "git://github.com/") eqn:E3.
  { rewrite (startsWith_decompose _ _ E3), convertSshUrlToHttps_git.
    apply convertSshUrlToHttps_web. }
  rewrite (convertSshUrlToHttps_other s E1 E2 E3).
  apply (convertSshUrlToHttps_other s E1 E2 E3).
Qed.

Section Probe.

Variable releasesGet : string -> option nat.

(** For a repository on [github.com], in the web form or in any of the
    three transport forms, [checkReleases] asks the GitHub API for
    [repos/<path>/releases] and answers whether the list has an entry; a
    request that fails counts as no release. *)
Theorem checkReleases_github :
  forall base path : string,
    base = "https://github.com/" \/ base = "ssh://git@github.com/" \/
    base = "git@github.com:" \/ base = "git://github.com/" ->
    checkReleases releasesGet (base ++ path) =
    match releasesGet ("https://api.github.com/repos/" ++ path ++ "/releases")
    with
    | Some n => (0 <? n)%nat
    | None => false
    end.
Proof.
  intros base path Hbase. unfold checkReleases.
  assert (Hconv : convertSshUrlToHttps (base ++ path) =
                  ("https://github.com/" ++ path)%string).
  { destruct Hbase as [-> | [-> | [-> | ->]]].
    - apply convertSshUrlToHttps_web.
    - apply convertSshUrlToHttps_ssh.
    - apply convertSshUrlToHttps_scp.
    - apply convertSshUrlToHttps_git. }
  cbv zeta. rewrite Hconv.
  rewrite (replace_prefix "https://github.com/"
             "https://api.github.com/repos/" path).
  reflexivity.
Qed.

(** For a repository URL that is not on [github.com] (it starts with none
    of the three transport prefixes and does not contain
    [https://github.com/]), [checkReleases] requests the URL itself followed
    by [/releases], which is the very address that becomes the
    documentation URL when the answer is not empty. *)
Theorem checkReleases_other_host :
  forall repoUrl : string,
    JS.startsWith repoUrl "ssh://git@github.com/" = false ->
    JS.startsWith repoUrl "git@github.com:" = false ->
    JS.startsWith repoUrl "git://github.com/" = false ->
    JS.includes repoUrl "https://github.com/" = false ->
    checkReleases releasesGet repoUrl =
    match releasesGet (repoUrl ++ "/releases") with
    | Some n => (0 <? n)%nat
    | None => false
    end.
Proof.
  intros repoUrl E1 E2 E3 Hweb. unfold checkReleases. cbv zeta.
  rewrite (convertSshUrlToHttps_other repoUrl E1 E2 E3).
  rewrite (replace_absent repoUrl _ _ Hweb). reflexivity.
Qed.

Lemma resolveDocUrl_nonempty (name : string) (info : PkgInfo) :
  resolveDocUrl releasesGet name info <> "".
Proof.
  unfold resolveDocUrl.
  set (repoUrl := match repositoryUrl info with
                  | Some u => if JS.truthy u then cleanRepositoryUrl u else ""
                  | None => ""
                  end).
  destruct (JS.truthy repoUrl).
  - destruct (checkReleases releasesGet repoUrl); [| discriminate].
    destruct repoUrl; discriminate.
  - destruct (homepageUrl info) as [h |]; cbn [JS.truthyOpt]; [| discriminate].
    destruct (JS.truthy h) eqn:Hh; [apply truthy_true, Hh | discriminate].
Qed.

Lemma releases_not_placeholder (s : string) : (s ++ "/releases")%string <> "N/A".
Proof.
  destruct s as [|a [|b [|c [|d s]]]]; cbn [append]; discriminate.
Qed.

(** The documentation URL is never empty, and it is the placeholder [N/A]
    only when that is the homepage the registry gave. *)
Theorem resolveDocUrl_populated :
  forall (name : string) (info : PkgInfo),
    resolveDocUrl releasesGet name info <> "" /\
    (resolveDocUrl releasesGet name info = "N/A" ->
     homepageUrl info = Some "N/A").
Proof.
  intros name info. unfold resolveDocUrl.
  set (repoUrl := match repositoryUrl info with
                  | Some u => if JS.truthy u then cleanRepositoryUrl u else ""
                  | None => ""
                  end).
  destruct (JS.truthy repoUrl) eqn:Hrepo.
  - destruct (checkReleases releasesGet repoUrl).
    + split; [| intros H; destruct (releases_not_placeholder _ H)].
      destruct repoUrl; discriminate.
    + split; discriminate.
  - destruct (homepageUrl info) as [h |]; cbn [JS.truthyOpt].
    + destruct (JS.truthy h) eqn:Hh.
      * split; [apply truthy_true, Hh | intros ->; reflexivity].
      * split; discriminate.
    + split; discriminate.
Qed.

End Probe.

Lemma checkReleases_github_witness :
  checkReleases (fun _ => Some 3) "git@github.com:acme/widget" = true.
Proof.
  exact (checkReleases_github (fun _ => Some 3) "git@github.com:" "acme/widget"
           (or_intror (or_intror (or_introl eq_refl)))).
Defined.

Lemma checkReleases_other_host_witness :
  checkReleases
    (fun address =>
       if (address =? "https://gitlab.com/acme/widget/releases")%string
       then Some 4096 else None)
    "https://gitlab.com/acme/widget" = true.
Proof.
  rewrite checkReleases_other_host; reflexivity.
Defined.

Lemma resolveDocUrl_populated_witness :
  homepageUrl
    {| info_latestVersion := "2.0.0"; repositoryUrl := None;
       homepageUrl := Some "N/A" |} = Some "N/A".
Proof.
  apply (resolveDocUrl_populated (fun _ => None) "widget"). reflexivity.
Defined.

(** ** Order and names of the detected updates *)

Lemma keys_filter_In {V} (f : string * V -> bool) (o : JS.Dict V) (k : string) :
  In k (JS.keys (filter f o)) -> In k (JS.keys o).
Proof.
  unfold JS.keys. rewrite !in_map_iff.
  intros [kv [Hk Hin]]. apply filter_In in Hin. exists kv. tauto.
Qed.

Lemma keys_filter_NoDup {V} (f : string * V -> bool) (o : JS.Dict V) :
  NoDup (JS.keys o) -> NoDup (JS.keys (filter f o)).
Proof.
  induction o as [|kv o IH]; intros H; [constructor |].
  inversion H as [|k ks Hnot Hrest]; subst. cbn [filter].
  destruct (f kv); [| exact (IH Hrest)].
  cbn [JS.keys map]. constructor; [| exact (IH Hrest)].
  intros Hin. apply Hnot. exact (keys_filter_In f o _ Hin).
Qed.

Section DetectorOrder.

Variable registryGet : string -> option RegistryData.
Variable releasesGet : string -> option nat.

Lemma checkDependency_outdated (entry : string * string) :
  match checkDependency registryGet releasesGet entry with
  | Some u => outdated registryGet entry = true /\ pkg u = fst entry
  | None => outdated registryGet entry = false
  end.
Proof.
  destruct entry as [name current]. unfold checkDependency, outdated. simpl.
  destruct (getPackageInfo registryGet name) as [info |]; [| reflexivity].
  destruct (negb _); simpl; auto.
Qed.

Lemma getDependencyUpdates_keys (dependencies : JS.Dict string) :
  map pkg (getDependencyUpdates registryGet releasesGet dependencies) =
  JS.keys (filter (outdated registryGet) dependencies).
Proof.
  induction dependencies as [|entry rest IH]; [reflexivity |].
  cbn [getDependencyUpdates filter].
  pose proof (checkDependency_outdated entry) as H.
  destruct (checkDependency registryGet releasesGet entry) as [u |].
  - destruct H as [-> Hname]. cbn [map JS.keys]. rewrite Hname.
    f_equal. exact IH.
  - rewrite H. exact IH.
Qed.

(** The detector reports the names of the entries that are out of date, in
    the order of the entries: no more records than entries, only names of
    entries, and no name twice when no entry name occurs twice. *)
Theorem getDependencyUpdates_in_order :
  forall dependencies : JS.Dict string,
    map pkg (getDependencyUpdates registryGet releasesGet dependencies) =
      JS.keys (filter (outdated registryGet) dependencies) /\
    length (getDependencyUpdates registryGet releasesGet dependencies) <=
      length dependencies /\
    (forall u,
        In u (getDependencyUpdates registryGet releasesGet dependencies) ->
        In (pkg u) (JS.keys dependencies)) /\
    (NoDup (JS.keys dependencies) ->
     NoDup (map pkg (getDependencyUpdates registryGet releasesGet dependencies))).
Proof.
  intros dependencies.
  pose proof (getDependencyUpdates_keys dependencies) as Hkeys.
  split; [exact Hkeys |]. split; [| split].
  - rewrite <- (length_map pkg), Hkeys. unfold JS.keys. rewrite length_map.
    apply filter_length_le.
  - intros u Hu. apply (keys_filter_In (outdated registryGet)).
    rewrite <- Hkeys. apply in_map, Hu.
  - intros Hnodup. rewrite Hkeys. apply keys_filter_NoDup, Hnodup.
Qed.

End DetectorOrder.

Lemma getDependencyUpdates_in_order_witness :
  NoDup (map pkg
           (getDependencyUpdates exampleRegistry noReleases exampleDependencies)).
Proof.
  destruct (getDependencyUpdates_in_order exampleRegistry noReleases
              exampleDependencies) as [_ [_ [_ H]]].
  apply H. repeat constructor; simpl; intuition discriminate.
Defined.

(** ** More on the version distance and the sort *)

Section RankingMore.

Variable semverParse : string -> option SemVer.

(** Swapping the two versions negates the distance, and for versions whose
    minor and patch numbers are below 100 the sign of the distance tells
    which version is the later one: positive exactly when [latest] is later
    than [current], zero exactly when the three numbers agree, negative
    exactly when [current] is later. *)
Theorem calculateVersionDifference_sign :
  forall current latest : string,
    calculateVersionDifference semverParse current latest =
      (- calculateVersionDifference semverParse latest current)%Z /\
    (forall c l,
        semverParse current = Some c -> semverParse latest = Some l ->
        twoDigits c -> twoDigits l ->
        ((0 < calculateVersionDifference semverParse current latest)%Z <->
         newer c l) /\
        (calculateVersionDifference semverParse current latest = 0%Z <->
         major c = major l /\ minor c = minor l /\ patch c = patch l) /\
        ((calculateVersionDifference semverParse current latest < 0)%Z <->
         newer l c)).
Proof.
  intros current latest. unfold calculateVersionDifference. split.
  - destruct (semverParse current) as [c |], (semverParse latest) as [l |];
      try reflexivity.
    rewrite (sub_swap (major l)), (sub_swap (minor l)), (sub_swap (patch l)).
    rewrite !mul_opp, add_opp, add_opp. reflexivity.
  - intros c l -> -> [Hcm Hcp] [Hlm Hlp]. unfold newer.
    assert (Hsafe : forall x, (-10000 < x < 10000)%Z -> JS.number x = x).
    { intros x Hx. apply number_safe. unfold safeInteger.
      change (2 ^ 53)%Z with 9007199254740992%Z. lia. }
    assert (Hk : forall k, (0 <= k <= 10000)%Z -> (0 <= k <= 2 ^ 53)%Z).
    { intros k Hk. change (2 ^ 53)%Z with 9007199254740992%Z. lia. }
    unfold JS.add, JS.mul, JS.sub.
    rewrite (Hsafe (minor l - minor c)%Z) by lia.
    rewrite (Hsafe (patch l - patch c)%Z) by lia.
    rewrite (Hsafe ((minor l - minor c) * 100)%Z) by lia.
    destruct (Z.lt_trichotomy (major l) (major c)) as [Hlt | [Heq | Hgt]].
    + pose proof (number_le 1 (major l - major c) (Hk 1%Z ltac:(lia))
                    ltac:(lia)) as H1.
      pose proof (number_le 10000 (JS.number (major l - major c) * 10000)
                    (Hk 10000%Z ltac:(lia)) ltac:(lia)) as H2.
      pose proof (number_le 100
                    (JS.number (JS.number (major l - major c) * 10000)
                     + (minor l - minor c) * 100)
                    (Hk 100%Z ltac:(lia)) ltac:(lia)) as H3.
      pose proof (number_le 1
                    (JS.number
                       (JS.number (JS.number (major l - major c) * 10000)
                        + (minor l - minor c) * 100)
                     + (patch l - patch c))
                    (Hk 1%Z ltac:(lia)) ltac:(lia)) as H4.
      lia.
    + rewrite Heq, Z.sub_diag.
      change (JS.number 0) with 0%Z. change (0 * 10000)%Z with 0%Z.
      change (JS.number 0) with 0%Z. rewrite Z.add_0_l.
      rewrite (Hsafe ((minor l - minor c) * 100)%Z) by lia.
      rewrite (Hsafe ((minor l - minor c) * 100 + (patch l - patch c))%Z)
        by lia.
      lia.
    + pose proof (number_ge 1 (major l - major c) (Hk 1%Z ltac:(lia))
                    ltac:(lia)) as H1.
      pose proof (number_ge 10000 (JS.number (major l - major c) * 10000)
                    (Hk 10000%Z ltac:(lia)) ltac:(lia)) as H2.
      pose proof (number_ge 100
                    (JS.number (JS.number (major l - major c) * 10000)
                     + (minor l - minor c) * 100)
                    (Hk 100%Z ltac:(lia)) ltac:(lia)) as H3.
      pose proof (number_ge 1
                    (JS.number
                       (JS.number (JS.number (major l - major c) * 10000)
                        + (minor l - minor c) * 100)
                     + (patch l - patch c))
                    (Hk 1%Z ltac:(lia)) ltac:(lia)) as H4.
      lia.
Qed.

Lemma sorted_fixed (l : list UpdateRecord) :
  StronglySorted (descending semverParse) l -> sortUpdates semverParse l = l.
Proof.
  unfold sortUpdates.
  induction 1 as [|x l Hsorted IH Hall]; [reflexivity |].
  cbn [JS.sort]. rewrite IH.
  destruct l as [|y l]; [reflexivity |].
  cbn [JS.sortInsert]. rewrite compareUpdates_leb.
  inversion Hall as [|y' l' Hxy _]; subst. unfold descending in Hxy.
  destruct (Z.leb_spec (distance semverParse y) (distance semverParse x));
    [reflexivity | lia].
Qed.

Lemma same_distance_sorted (l : list UpdateRecord) (d : Z) :
  Forall (fun u => distance semverParse u = d) l ->
  StronglySorted (descending semverParse) l.
Proof.
  induction 1 as [|x l Hx Hall IH]; constructor; [exact IH |].
  eapply Forall_impl; [| exact Hall].
  unfold descending. intros y Hy. lia.
Qed.

(** Sorting leaves a list alone when its distances never increase: so
    sorting twice is sorting once, and a list whose records are all at one
    distance (all unparseable, for one) keeps its order. *)
Theorem sortUpdates_fixed_points :
  forall updates : list UpdateRecord,
    (StronglySorted (descending semverParse) updates ->
     sortUpdates semverParse updates = updates) /\
    sortUpdates semverParse (sortUpdates semverParse updates) =
      sortUpdates semverParse updates /\
    (forall d,
        Forall (fun u => distance semverParse u = d) updates ->
        sortUpdates semverParse updates = updates).
Proof.
  intros updates. split; [apply sorted_fixed |]. split.
  - apply sorted_fixed, sortUpdates_sorted.
  - intros d H. apply sorted_fixed. exact (same_distance_sorted _ d H).
Qed.

Lemma atDistance_head (x : UpdateRecord) (l : list UpdateRecord) :
  atDistance semverParse (distance semverParse x) (x :: l) =
  x :: atDistance semverParse (distance semverParse x) l.
Proof.
  unfold atDistance. cbn [filter]. rewrite Z.eqb_refl. reflexivity.
Qed.

Lemma atDistance_skip (d : Z) (x : UpdateRecord) (l : list UpdateRecord) :
  distance semverParse x <> d ->
  atDistance semverParse d (x :: l) = atDistance semverParse d l.
Proof.
  intros H. unfold atDistance. cbn [filter].
  destruct (Z.eqb_spec (distance semverParse x) d); [contradiction | reflexivity].
Qed.

Lemma atDistance_In (d : Z) (x : UpdateRecord) (l l' : list UpdateRecord) :
  atDistance semverParse d l = x :: l' -> In x l.
Proof.
  intros H. assert (Hin : In x (atDistance semverParse d l))
    by (rewrite H; left; reflexivity).
  apply filter_In in Hin. tauto.
Qed.

(** Two lists with non-increasing distances and the same records, in the
    same order, at every distance are the same list. *)
Lemma sorted_stable_unique (l1 l2 : list UpdateRecord) :
  StronglySorted (descending semverParse) l1 ->
  StronglySorted (descending semverParse) l2 ->
  (forall d, atDistance semverParse d l1 = atDistance semverParse d l2) ->
  l1 = l2.
Proof.
  revert l2. induction l1 as [|x l1 IH]; intros l2 S1 S2 H.
  - destruct l2 as [|y l2]; [reflexivity |].
    specialize (H (distance semverParse y)). rewrite atDistance_head in H.
    discriminate H.
  - destruct l2 as [|y l2].
    + specialize (H (distance semverParse x)). rewrite atDistance_head in H.
      discriminate H.
    + apply StronglySorted_inv in S1. destruct S1 as [S1 A1].
      apply StronglySorted_inv in S2. destruct S2 as [S2 A2].
      rewrite Forall_forall in A1, A2.
      destruct (Z.eq_dec (distance semverParse y) (distance semverParse x))
        as [Heq | Hne].
      * pose proof (H (distance semverParse x)) as Hx.
        rewrite atDistance_head, <- Heq, atDistance_head in Hx.
        injection Hx as Hxy _. subst y. f_equal.
        apply IH; [exact S1 | exact S2 |].
        intros d. specialize (H d).
        destruct (Z.eq_dec (distance semverParse x) d) as [<- | Hd].
        -- rewrite !atDistance_head in H. injection H as H. exact H.
        -- rewrite !atDistance_skip in H by exact Hd. exact H.
      * exfalso.
        pose proof (H (distance semverParse x)) as Hx.
        rewrite atDistance_head, atDistance_skip in Hx by exact Hne.
        symmetry in Hx. apply atDistance_In in Hx. apply A2 in Hx.
        pose proof (H (distance semverParse y)) as Hy.
        rewrite atDistance_head, atDistance_skip in Hy
          by (intros E; apply Hne; symmetry; exact E).
        apply atDistance_In in Hy. apply A1 in Hy.
        unfold descending in Hx, Hy. lia.
Qed.

(** The result of [sortUpdates] is the only arrangement of the records with
    non-increasing distances that keeps the input order at every distance:
    any stable sort by this comparator returns it. *)
Theorem sortUpdates_unique :
  forall updates sorted : list UpdateRecord,
    StronglySorted (descending semverParse) sorted ->
    (forall d, atDistance semverParse d sorted =
               atDistance semverParse d updates) ->
    sorted = sortUpdates semverParse updates.
Proof.
  intros updates sorted Hsorted Hstable.
  apply sorted_stable_unique;
    [exact Hsorted | apply sortUpdates_sorted |].
  intros d. rewrite sortUpdates_atDistance. apply Hstable.
Qed.

Lemma filter_swap {A} (f g : A -> bool) (l : list A) :
  filter g (filter f l) = filter f (filter g l).
Proof.
  induction l as [|x l IH]; [reflexivity |].
  cbn [filter]. destruct (f x) eqn:Ef, (g x) eqn:Eg;
    cbn [filter]; rewrite ?Ef, ?Eg, IH; reflexivity.
Qed.

Lemma sortUpdates_filter (f : UpdateRecord -> bool) (l : list UpdateRecord) :
  filter f (sortUpdates semverParse l) = sortUpdates semverParse (filter f l).
Proof.
  apply sorted_stable_unique.
  - apply StronglySorted_filter, sortUpdates_sorted.
  - apply sortUpdates_sorted.
  - intros d. rewrite sortUpdates_atDistance.
    pose proof (sortUpdates_atDistance semverParse d l) as H.
    unfold atDistance in *.
    rewrite filter_swap, H. apply filter_swap.
Qed.

(** Splitting into priority and other records commutes with sorting:
    sorting first and splitting afterwards, as [main] does, gives the lists
    that sorting each part on its own would give. *)
Theorem partition_commutes_with_sort :
  forall (priorityPackages : list string) (updates : list UpdateRecord),
    prioritized priorityPackages (sortUpdates semverParse updates) =
      sortUpdates semverParse (prioritized priorityPackages updates) /\
    others priorityPackages (sortUpdates semverParse updates) =
      sortUpdates semverParse (others priorityPackages updates).
Proof.
  intros pp updates. unfold prioritized, others.
  split; apply sortUpdates_filter.
Qed.

End RankingMore.

Lemma calculateVersionDifference_sign_witness :
  (0 < calculateVersionDifference plainSemver "1.2.3" "2.0.1")%Z.
Proof.
  destruct (calculateVersionDifference_sign plainSemver "1.2.3" "2.0.1")
    as [_ H].
  destruct (H {| major := 1; minor := 2; patch := 3 |}
              {| major := 2; minor := 0; patch := 1 |} eq_refl eq_refl)
    as [Hpos _].
  - unfold twoDigits. simpl. lia.
  - unfold twoDigits. simpl. lia.
  - apply Hpos. unfold newer. simpl. lia.
Defined.

Lemma sortUpdates_fixed_points_witness :
  sortUpdates plainSemver [majorJump; minorJump; otherMinorJump; patchJump] =
    [majorJump; minorJump; otherMinorJump; patchJump] /\
  sortUpdates plainSemver [otherMinorJump; minorJump] =
    [otherMinorJump; minorJump].
Proof.
  split.
  - destruct (sortUpdates_fixed_points plainSemver
                [majorJump; minorJump; otherMinorJump; patchJump]) as [H _].
    apply H. repeat constructor; unfold descending; vm_compute; discriminate.
  - destruct (sortUpdates_fixed_points plainSemver
                [otherMinorJump; minorJump]) as [_ [_ H]].
    apply (H 100%Z). repeat constructor.
Defined.

Lemma sortUpdates_unique_witness :
  [majorJump; minorJump; patchJump] =
  sortUpdates plainSemver [patchJump; majorJump; minorJump].
Proof.
  apply sortUpdates_unique.
  - repeat constructor; unfold descending; vm_compute; discriminate.
  - intros d. unfold atDistance. cbn [filter].
    change (distance plainSemver majorJump) with 20000%Z.
    change (distance plainSemver minorJump) with 100%Z.
    change (distance plainSemver patchJump) with 5%Z.
    destruct (Z.eqb_spec 20000 d), (Z.eqb_spec 100 d), (Z.eqb_spec 5 d);
      try reflexivity; lia.
Defined.

(** ** More on the lockfile resolver *)

Section DictKeys.

Context {V : Type}.

Lemma get_In_keys (o : JS.Dict V) (k : string) :
  In k (JS.keys o) -> exists v, JS.get o k = Some v.
Proof.
  induction o as [|[k' v'] o IH]; simpl; [contradiction |].
  intros [-> | Hin].
  - rewrite String.eqb_refl. eauto.
  - destruct (String.eqb k' k); eauto.
Qed.

Lemma get_absent (o : JS.Dict V) (k : string) :
  ~ In k (JS.keys o) -> JS.get o k = None.
Proof.
  intros Hnot. destruct (JS.get o k) as [v |] eqn:E; [| reflexivity].
  destruct Hnot. exact (get_Some_In_keys o k v E).
Qed.

Lemma keys_set_present (o : JS.Dict V) (k : string) (v : V) :
  In k (JS.keys o) -> JS.keys (JS.set o k v) = JS.keys o.
Proof.
  induction o as [|[k' v'] o IH]; simpl; [contradiction |].
  intros Hin. destruct (String.eqb_spec k' k) as [-> | Hne]; [reflexivity |].
  cbn [JS.keys map fst]. f_equal. apply IH.
  destruct Hin as [-> | Hin]; [contradiction | exact Hin].
Qed.

Lemma keys_set_absent (o : JS.Dict V) (k : string) (v : V) :
  ~ In k (JS.keys o) -> JS.keys (JS.set o k v) = JS.keys o ++ [k].
Proof.
  induction o as [|[k' v'] o IH]; simpl; [reflexivity |].
  intros Hnot. destruct (String.eqb_spec k' k) as [-> | Hne].
  - destruct Hnot. left. reflexivity.
  - cbn [JS.keys map fst]. f_equal. apply IH. intros Hin. apply Hnot.
    right. exact Hin.
Qed.

End DictKeys.

Lemma sameName_true (name key : string) :
  sameName name (lockedPkgOf key) = true -> lockedPkgOf key = Some name.
Proof.
  unfold sameName. destruct (lockedPkgOf key) as [l |]; [| discriminate].
  intros H. apply String.eqb_eq in H. congruence.
Qed.

Lemma lockedPkgOf_compound (name range : string) :
  name <> "" -> JS.includes name "@" = false ->
  lockedPkgOf (name ++ "@" ++ range) = Some name.
Proof.
  intros Hne Hno. unfold lockedPkgOf.
  change (name ++ "@" ++ range)%string with (name ++ String "@" range)%string.
  rewrite (split_app_sep name range "@"%char Hno).
  cbn [filter]. rewrite (proj2 (truthy_true name) Hne). reflexivity.
Qed.

(** The name part of a compound key [name@range] built from a non-empty
    name without ['@'] is the name, whatever the range; so the scan
    recognises every entry of an unscoped package. *)
Theorem lockedPkgOf_roundtrip :
  forall name range : string,
    name <> "" -> JS.includes name "@" = false ->
    lockedPkgOf (name ++ "@" ++ range) = Some name /\
    sameName name (lockedPkgOf (name ++ "@" ++ range)) = true.
Proof.
  intros name range Hne Hno.
  rewrite (lockedPkgOf_compound name range Hne Hno).
  split; [reflexivity |]. unfold sameName. apply String.eqb_refl.
Qed.

Lemma lockedPkgOf_roundtrip_witness :
  lockedPkgOf "left-pad@>=1.0.0 <2.0.0" = Some "left-pad".
Proof.
  apply (lockedPkgOf_roundtrip "left-pad" ">=1.0.0 <2.0.0");
    [discriminate | reflexivity].
Defined.

Lemma lastMatch_found (parsedYarnLock : Lock) (name key : string) :
  In key (JS.keys parsedYarnLock) ->
  nameMatches parsedYarnLock name key = true ->
  exists v, lastMatch parsedYarnLock name = Some v.
Proof.
  intros Hin Hmatch. unfold lastMatch.
  destruct (find _ _) as [k |] eqn:E.
  - apply find_some in E. destruct E as [_ Hk].
    unfold nameMatches in Hk. apply andb_true_iff in Hk.
    destruct Hk as [_ Hk]. unfold versionAt.
    destruct (JS.get parsedYarnLock k) as [e |]; [| discriminate].
    simpl. eauto.
  - pose proof (find_none _ _ E key) as Hnone.
    rewrite Hmatch in Hnone. discriminate Hnone.
    apply in_rev. rewrite rev_involutive. exact Hin.
Qed.

(** Completeness of the fallback: when the lockfile has an entry for a
    declared, non-empty, unscoped name under any range, the resolver has a
    version for that name. *)
Theorem resolveLock_finds_any_range :
  forall (packageJsonDependencies : JS.Dict string) (parsedYarnLock : Lock)
         (name range lockedRange : string) (entry : LockEntry),
    JS.get packageJsonDependencies name = Some range ->
    name <> "" -> JS.includes name "@" = false ->
    JS.get parsedYarnLock (name ++ "@" ++ lockedRange) = Some entry ->
    exists v,
      JS.get (resolveLock packageJsonDependencies parsedYarnLock) name = Some v.
Proof.
  intros decl lock name range lockedRange entry Hrange Hne Hno Hentry.
  rewrite (resolveLock_get decl lock name range Hrange).
  unfold resolvedVersion.
  destruct (JS.get lock (dependencyKeyOf decl name)) as [e |]; [eauto |].
  apply (lastMatch_found lock name (name ++ "@" ++ lockedRange)).
  - exact (get_Some_In_keys lock _ entry Hentry).
  - unfold nameMatches. rewrite Hentry.
    rewrite (lockedPkgOf_compound name lockedRange Hne Hno).
    unfold sameName. rewrite String.eqb_refl. reflexivity.
Qed.

Lemma resolveLock_finds_any_range_witness :
  exists v, JS.get (resolveLock widgetManifest widgetLock) "widget" = Some v.
Proof.
  apply (resolveLock_finds_any_range widgetManifest widgetLock
           "widget" "^1.2.0" "^1.0.0" {| version := "1.2.5" |});
    [reflexivity | discriminate | reflexivity | reflexivity].
Defined.

(** Soundness of the resolver: a name has a version in the result only if
    it is declared, and the version is that of a lock entry that either is
    under the exact compound key or has the name as its name part; no
    version is made up and no undeclared package appears. *)
Theorem resolveLock_sound :
  forall (packageJsonDependencies : JS.Dict string) (parsedYarnLock : Lock)
         (name v : string),
    JS.get (resolveLock packageJsonDependencies parsedYarnLock) name = Some v ->
    exists range key entry,
      JS.get packageJsonDependencies name = Some range /\
      JS.get parsedYarnLock key = Some entry /\
      version entry = v /\
      (key = (name ++ "@" ++ range)%string \/ lockedPkgOf key = Some name).
Proof.
  intros decl lock name v Hget. unfold resolveLock in Hget.
  destruct (in_dec string_dec name (JS.keys decl)) as [Hin | Hnot].
  2: { rewrite resolve_names_absent in Hget by exact Hnot. discriminate Hget. }
  rewrite resolve_names_present in Hget by exact Hin.
  destruct (get_In_keys decl name Hin) as [range Hrange].
  exists range.
  unfold resolvedVersion, dependencyKeyOf in Hget. rewrite Hrange in Hget.
  destruct (JS.get lock (name ++ "@" ++ range)) as [e |] eqn:Hexact.
  - injection Hget as <-. exists (name ++ "@" ++ range)%string, e. auto.
  - unfold lastMatch in Hget.
    destruct (find _ _) as [key |] eqn:E; [| discriminate Hget].
    apply find_some in E. destruct E as [_ Hkey].
    unfold nameMatches in Hkey. apply andb_true_iff in Hkey.
    destruct Hkey as [Hname _]. apply sameName_true in Hname.
    unfold versionAt in Hget.
    destruct (JS.get lock key) as [e |] eqn:Hentry; [| discriminate Hget].
    injection Hget as <-. exists key, e. auto.
Qed.

Lemma resolveLock_sound_witness :
  exists range key entry,
    JS.get widgetManifest "widget" = Some range /\
    JS.get widgetLockTwice key = Some entry /\
    version entry = "1.3.0" /\
    (key = ("widget" ++ "@" ++ range)%string \/ lockedPkgOf key = Some "widget").
Proof.
  apply (resolveLock_sound widgetManifest widgetLockTwice "widget" "1.3.0").
  reflexivity.
Defined.

Section ResolverKeys.

Variable packageJsonDependencies : JS.Dict string.
Variable parsedYarnLock : Lock.

Lemma scan_keys_present (name : string) (ks : list string) (d : JS.Dict string) :
  In name (JS.keys d) ->
  JS.keys
    (fold_left
       (fun deps key =>
          if sameName name (lockedPkgOf key) then
            match JS.get parsedYarnLock key with
            | Some entry => JS.set deps name (version entry)
            | None => deps
            end
          else deps) ks d) = JS.keys d.
Proof.
  revert d. induction ks as [|k ks IH]; intros d Hin; [reflexivity |].
  cbn [fold_left].
  destruct (sameName name (lockedPkgOf k)); [| exact (IH d Hin)].
  destruct (JS.get parsedYarnLock k) as [e |]; [| exact (IH d Hin)].
  rewrite IH; rewrite (keys_set_present d name (version e) Hin);
    [reflexivity | exact Hin].
Qed.

Lemma scan_keys_absent (name : string) (ks : list string) (d : JS.Dict string) :
  ~ In name (JS.keys d) ->
  JS.keys
    (fold_left
       (fun deps key =>
          if sameName name (lockedPkgOf key) then
            match JS.get parsedYarnLock key with
            | Some entry => JS.set deps name (version entry)
            | None => deps
            end
          else deps) ks d) =
  JS.keys d ++
  (if existsb (nameMatches parsedYarnLock name) ks then [name] else []).
Proof.
  revert d. induction ks as [|k ks IH]; intros d Hnot.
  - simpl. rewrite app_nil_r. reflexivity.
  - cbn [fold_left existsb]. unfold nameMatches at 1.
    destruct (sameName name (lockedPkgOf k)); [| exact (IH d Hnot)].
    destruct (JS.get parsedYarnLock k) as [e |]; [| exact (IH d Hnot)].
    cbn [andb orb].
    rewrite scan_keys_present;
      rewrite (keys_set_absent d name (version e) Hnot);
      [reflexivity | apply in_or_app; right; left; reflexivity].
Qed.

Lemma lastMatch_existsb (name : string) :
  match lastMatch parsedYarnLock name with
  | Some _ => true
  | None => false
  end = existsb (nameMatches parsedYarnLock name) (JS.keys parsedYarnLock).
Proof.
  destruct (existsb _ _) eqn:E.
  - apply existsb_exists in E. destruct E as [key [Hin Hmatch]].
    destruct (lastMatch_found parsedYarnLock name key Hin Hmatch) as [v ->].
    reflexivity.
  - unfold lastMatch. destruct (find _ _) as [key |] eqn:F; [| reflexivity].
    apply find_some in F. destruct F as [Hin Hmatch].
    apply in_rev in Hin.
    assert (Htrue : existsb (nameMatches parsedYarnLock name)
                      (JS.keys parsedYarnLock) = true)
      by (apply existsb_exists; eauto).
    congruence.
Qed.

Lemma resolveName_keys (name : string) (d : JS.Dict string) :
  ~ In name (JS.keys d) ->
  JS.keys (resolveName packageJsonDependencies parsedYarnLock d name) =
  JS.keys d ++
  (if resolves packageJsonDependencies parsedYarnLock name then [name] else []).
Proof.
  intros Hnot. unfold resolveName, resolves, resolvedVersion.
  destruct (JS.get parsedYarnLock _) as [e |].
  - apply keys_set_absent, Hnot.
  - unfold scanLock. rewrite (scan_keys_absent name _ d Hnot).
    rewrite <- lastMatch_existsb. reflexivity.
Qed.

Lemma resolve_names_keys (names : list string) (d : JS.Dict string) :
  NoDup names ->
  (forall n, In n names -> ~ In n (JS.keys d)) ->
  JS.keys
    (fold_left (resolveName packageJsonDependencies parsedYarnLock) names d) =
  JS.keys d ++ filter (resolves packageJsonDependencies parsedYarnLock) names.
Proof.
  revert d. induction names as [|n ns IH]; intros d Hnodup Hfresh.
  - simpl. rewrite app_nil_r. reflexivity.
  - inversion Hnodup as [|n' ns' Hn Hns]; subst.
    cbn [fold_left filter].
    assert (Hstep := resolveName_keys n d (Hfresh n (or_introl eq_refl))).
    rewrite IH; [| exact Hns |].
    + rewrite Hstep, <- app_assoc.
      destruct (resolves packageJsonDependencies parsedYarnLock n); reflexivity.
    + intros m Hm. rewrite Hstep. intros Hin. apply in_app_or in Hin.
      destruct Hin as [Hin | Hin].
      * exact (Hfresh m (or_intror Hm) Hin).
      * destruct (resolves packageJsonDependencies parsedYarnLock n);
          [| contradiction].
        destruct Hin as [-> | []]. exact (Hn Hm).
Qed.

End ResolverKeys.

(** The resolved map lists the declared names that have a version, in the
    order of their declaration, each once. *)
Theorem resolveLock_keys_in_order :
  forall (packageJsonDependencies : JS.Dict string) (parsedYarnLock : Lock),
    NoDup (JS.keys packageJsonDependencies) ->
    JS.keys (resolveLock packageJsonDependencies parsedYarnLock) =
      filter (resolves packageJsonDependencies parsedYarnLock)
        (JS.keys packageJsonDependencies) /\
    NoDup (JS.keys (resolveLock packageJsonDependencies parsedYarnLock)).
Proof.
  intros decl lock Hnodup.
  assert (Hkeys : JS.keys (resolveLock decl lock) =
                  filter (resolves decl lock) (JS.keys decl)).
  { unfold resolveLock.
    rewrite (resolve_names_keys decl lock (JS.keys decl) [] Hnodup);
      [reflexivity | intros n _ []]. }
  split; [exact Hkeys |]. rewrite Hkeys. apply NoDup_filter, Hnodup.
Qed.

Lemma resolveLock_keys_in_order_witness :
  JS.keys
    (resolveLock [("widget", "^1.2.0"); ("missing", "^1.0.0"); ("left-pad", "^1.0.0")]
       widgetLock) = ["widget"; "left-pad"].
Proof.
  destruct (resolveLock_keys_in_order
              [("widget", "^1.2.0"); ("missing", "^1.0.0"); ("left-pad", "^1.0.0")]
              widgetLock) as [H _].
  - repeat constructor; simpl; intuition discriminate.
  - rewrite H. reflexivity.
Defined.

(** ** The merged dependency map *)

Section Spread.

Context {V : Type}.

Lemma set_NoDup (o : JS.Dict V) (k : string) (v : V) :
  NoDup (JS.keys o) -> NoDup (JS.keys (JS.set o k v)).
Proof.
  intros H. destruct (in_dec string_dec k (JS.keys o)) as [Hin | Hnot].
  - rewrite (keys_set_present o k v Hin). exact H.
  - rewrite (keys_set_absent o k v Hnot).
    apply NoDup_app; repeat split.
    + exact H.
    + repeat constructor. intros [].
    + intros x Hx [<- | []]. exact (Hnot Hx).
Qed.

Lemma spreadInto_NoDup (target o : JS.Dict V) :
  NoDup (JS.keys target) -> NoDup (JS.keys (spreadInto target o)).
Proof.
  unfold spreadInto. revert target.
  induction o as [|[k v] o IH]; intros target H; [exact H |].
  cbn [fold_left]. apply IH, set_NoDup, H.
Qed.

Lemma spreadInto_get (target o : JS.Dict V) (k : string) :
  NoDup (JS.keys o) ->
  JS.get (spreadInto target o) k =
  match JS.get o k with
  | Some v => Some v
  | None => JS.get target k
  end.
Proof.
  unfold spreadInto. revert target.
  induction o as [|[k' v'] o IH]; intros target H; [reflexivity |].
  inversion H as [|k0 ks Hnot Hrest]; subst.
  cbn [fold_left fst snd JS.get]. rewrite (IH _ Hrest).
  destruct (String.eqb_spec k' k) as [-> | Hne].
  - rewrite (get_absent o k Hnot). apply get_set_same.
  - destruct (JS.get o k); [reflexivity |]. apply get_set_other, Hne.
Qed.

End Spread.

(** The merged map of [main] has each name once; looking a name up gives
    its range in [devDependencies] when it is declared there, and its range
    in [dependencies] otherwise. *)
Theorem mergedDependencies_lookup :
  forall packageJson : PackageJson,
    NoDup (JS.keys (mergedDependencies packageJson)) /\
    (NoDup (JS.keys (ownProperties (dependencies packageJson))) ->
     NoDup (JS.keys (ownProperties (devDependencies packageJson))) ->
     forall name,
       JS.get (mergedDependencies packageJson) name =
       match JS.get (ownProperties (devDependencies packageJson)) name with
       | Some range => Some range
       | None => JS.get (ownProperties (dependencies packageJson)) name
       end).
Proof.
  intros packageJson. unfold mergedDependencies. split.
  - apply spreadInto_NoDup, spreadInto_NoDup. constructor.
  - intros Hdeps Hdev name.
    rewrite (spreadInto_get _ _ name Hdev).
    destruct (JS.get (ownProperties (devDependencies packageJson)) name);
      [reflexivity |].
    rewrite (spreadInto_get _ _ name Hdeps).
    destruct (JS.get (ownProperties (dependencies packageJson)) name);
      reflexivity.
Qed.

Lemma mergedDependencies_lookup_witness :
  JS.get (mergedDependencies examplePackageJson) "chalk" = Some "^5.0.0" /\
  JS.get (mergedDependencies examplePackageJson) "react" = Some "^18.0.0".
Proof.
  destruct (mergedDependencies_lookup examplePackageJson) as [_ H].
  assert (Hdeps : NoDup (JS.keys (ownProperties (dependencies examplePackageJson))))
    by (repeat constructor; simpl; intuition discriminate).
  assert (Hdev : NoDup (JS.keys (ownProperties (devDependencies examplePackageJson))))
    by (repeat constructor; simpl; intuition discriminate).
  split; rewrite (H Hdeps Hdev); reflexivity.
Defined.

(** ** Column widths and tables *)

Lemma fold_widenColumns (hyperlinks : bool) (updates : list UpdateRecord) :
  forall p v d p' v' d',
    fold_left (widenColumns hyperlinks) updates (p, v, d) = (p', v', d') ->
    p <= p' /\ v <= v' /\ d <= d' /\
    (forall u, In u updates ->
       String.length (pkg u) <= p' /\
       String.length (currentVersion u ++ " -> " ++ latestVersion u) <= v' /\
       (hyperlinks = false -> String.length (docUrl u) <= d')) /\
    (hyperlinks = true -> 4 <= d -> d' = d).
Proof.
  induction updates as [|x l IH]; intros p v d p' v' d' H.
  - injection H as <- <- <-.
    split; [lia |]. split; [lia |]. split; [lia |]. split; [| reflexivity].
    intros u [].
  - cbn [fold_left widenColumns String.length] in H. apply IH in H.
    destruct H as [Hp [Hv [Hd [Hall Hlink]]]].
    split; [lia |]. split; [lia |]. split; [lia |]. split.
    + intros u [<- | Hin]; [| apply Hall, Hin].
      split; [lia |]. split; [lia |].
      intros Hplain. rewrite Hplain in Hd. lia.
    + intros Hyes Hfour. rewrite Hyes in Hlink. specialize (Hlink eq_refl). lia.
Qed.

(** The column widths hold every row with two characters to spare, and are
    never below those of the headings (9, 19 and 6); when the terminal shows
    hyperlinks the third column is 6 wide whatever the URLs are. *)
Theorem calculateColumnWidths_fit :
  forall (hyperlinks : bool) (updates : list UpdateRecord),
    let '(packageWidth, versionUpdateWidth, docsWidth) :=
      calculateColumnWidths hyperlinks updates in
    9 <= packageWidth /\ 19 <= versionUpdateWidth /\ 6 <= docsWidth /\
    (forall u, In u updates ->
       String.length (pkg u) + 2 <= packageWidth /\
       String.length (currentVersion u ++ " -> " ++ latestVersion u) + 2
         <= versionUpdateWidth /\
       (hyperlinks = false -> String.length (docUrl u) + 2 <= docsWidth)) /\
    (hyperlinks = true -> docsWidth = 6).
Proof.
  intros hyperlinks updates. unfold calculateColumnWidths.
  destruct (fold_left _ _ _) as [[p v] d] eqn:E.
  apply fold_widenColumns in E. cbn [String.length] in E.
  destruct E as [Hp [Hv [Hd [Hall Hlink]]]].
  split; [lia |]. split; [lia |]. split; [lia |]. split.
  - intros u Hu. destruct (Hall u Hu) as [Hpkg [Hver Hdoc]].
    split; [lia |]. split; [lia |].
    intros Hplain. specialize (Hdoc Hplain). lia.
  - intros Hyes. specialize (Hlink Hyes). lia.
Qed.

Lemma calculateColumnWidths_fit_witness :
  calculateColumnWidths true [majorJump; minorJump; patchJump] = (10, 19, 6).
Proof.
  pose proof (calculateColumnWidths_fit true [majorJump; minorJump; patchJump])
    as H.
  destruct (calculateColumnWidths true [majorJump; minorJump; patchJump])
    as [[p v] d] eqn:E.
  destruct H as [_ [_ [_ [_ Hlink]]]].
  rewrite (Hlink eq_refl). vm_compute in E. injection E as <- <- _.
  reflexivity.
Defined.

Lemma shown_displayTable (heading : string) (updates : list UpdateRecord)
    (widths : nat * nat * nat) :
  shown (displayTable heading updates widths) = updates.
Proof.
  destruct updates; [reflexivity |]. unfold shown, displayTable.
  cbn [flat_map rows]. apply app_nil_r.
Qed.

Lemma displayTable_Forall (P : Table -> Prop) (heading : string)
    (updates : list UpdateRecord) (widths : nat * nat * nat) :
  (updates <> [] ->
   P {| title := heading; rows := updates; colWidths := widths |}) ->
  Forall P (displayTable heading updates widths).
Proof.
  intros H. destruct updates as [|u l]; [constructor |].
  constructor; [apply H; discriminate | constructor].
Qed.

Section Tables.

Variable semverParse : string -> option SemVer.
Variable registryGet : string -> option RegistryData.
Variable releasesGet : string -> option nat.
Variable parseLock : string -> option Lock.

(** The tables show the records of the JSON report, priority records
    first, in the same order; no empty table is printed; every table has
    the widths computed from all reported records; and the titles name the
    source the report was made from. *)
Theorem mainTables_show_report :
  forall (hyperlinks : bool) (lockfile : option string)
         (priorityPackages : list string)
         (packageJsonDependencies : JS.Dict string),
    let report :=
      main semverParse registryGet releasesGet parseLock lockfile
        priorityPackages packageJsonDependencies in
    let tables :=
      mainTables semverParse registryGet releasesGet parseLock hyperlinks
        lockfile priorityPackages packageJsonDependencies in
    shown tables = priorityUpdates report ++ otherUpdates report /\
    Forall
      (fun t =>
         rows t <> [] /\
         colWidths t =
           calculateColumnWidths hyperlinks
             (priorityUpdates report ++ otherUpdates report) /\
         match source report with
         | FromYarnLock =>
             t = {| title := "Priority Updates from yarn.lock";
                    rows := priorityUpdates report; colWidths := colWidths t |} \/
             t = {| title := "Other Updates from yarn.lock";
                    rows := otherUpdates report; colWidths := colWidths t |}
         | FromPackageJson =>
             t = {| title := "Priority Updates from package.json";
                    rows := priorityUpdates report; colWidths := colWidths t |} \/
             t = {| title := "Other Updates from package.json";
                    rows := otherUpdates report; colWidths := colWidths t |}
         end)
      tables.
Proof.
  intros hyperlinks lockfile pp decl. unfold main, mainTables.
  destruct (getPackagesFromYarnLock lockfile parseLock decl) as [deps |];
    cbv zeta; cbn [source priorityUpdates otherUpdates].
  - change (prioritized pp (sortUpdates semverParse [])) with (@nil UpdateRecord).
    change (others pp (sortUpdates semverParse [])) with (@nil UpdateRecord).
    cbn [app]. split.
    + unfold shown. rewrite flat_map_app. fold (shown (displayTable
        "Priority Updates from yarn.lock"
        (prioritized pp (sortUpdates semverParse
           (getDependencyUpdates registryGet releasesGet deps)))
        (calculateColumnWidths hyperlinks
           (prioritized pp (sortUpdates semverParse
              (getDependencyUpdates registryGet releasesGet deps)) ++
            others pp (sortUpdates semverParse
              (getDependencyUpdates registryGet releasesGet deps)))))).
      rewrite shown_displayTable. f_equal. apply shown_displayTable.
    + apply Forall_app. split; apply displayTable_Forall; cbn [rows colWidths];
        auto.
  - change (prioritized pp (sortUpdates semverParse [])) with (@nil UpdateRecord).
    change (others pp (sortUpdates semverParse [])) with (@nil UpdateRecord).
    cbn [app]. rewrite !app_nil_r. split.
    + unfold shown. rewrite flat_map_app. fold (shown (displayTable
        "Priority Updates from package.json"
        (prioritized pp (sortUpdates semverParse
           (getDependencyUpdates registryGet releasesGet decl)))
        (calculateColumnWidths hyperlinks
           (prioritized pp (sortUpdates semverParse
              (getDependencyUpdates registryGet releasesGet decl)) ++
            others pp (sortUpdates semverParse
              (getDependencyUpdates registryGet releasesGet decl)))))).
      rewrite shown_displayTable. f_equal. apply shown_displayTable.
    + apply Forall_app. split; apply displayTable_Forall; cbn [rows colWidths];
        auto.
Qed.

End Tables.

(** ** The priority configuration *)

(** On a run without configuration file the default configuration is
    written and, when [JSON.parse] reads back what [JSON.stringify] wrote,
    the default priority packages are returned.  An existing file is never
    rewritten, a file without the [priorityPackages] field gives the empty
    list, and loading again after any successful or failed load finds the
    same content and gives the same answer. *)
Theorem loadPriorityPackages_first_run :
  forall (jsonParse : string -> option Config)
         (jsonStringify : Config -> string),
    (jsonParse
       (jsonStringify {| priorityPackages := Some defaultPriorityPackages |}) =
     Some {| priorityPackages := Some defaultPriorityPackages |} ->
     loadPriorityPackages jsonParse jsonStringify None =
     (jsonStringify {| priorityPackages := Some defaultPriorityPackages |},
      Some ["react"; "axios"; "express"])) /\
    (forall text,
        fst (loadPriorityPackages jsonParse jsonStringify (Some text)) = text) /\
    (forall text,
        jsonParse text = Some {| priorityPackages := None |} ->
        snd (loadPriorityPackages jsonParse jsonStringify (Some text)) = Some []) /\
    (forall configFile,
        loadPriorityPackages jsonParse jsonStringify
          (Some (fst (loadPriorityPackages jsonParse jsonStringify configFile))) =
        loadPriorityPackages jsonParse jsonStringify configFile).
Proof.
  intros jsonParse jsonStringify. unfold loadPriorityPackages.
  split; [| split; [| split]].
  - intros Hround. unfold generateDefaultConfigFile. rewrite Hround.
    reflexivity.
  - reflexivity.
  - intros text Hparse. cbn [snd]. rewrite Hparse. reflexivity.
  - intros [text |]; reflexivity.
Qed.

Lemma loadPriorityPackages_first_run_witness :
  loadPriorityPackages toyParse toyStringify None =
    ("default", Some ["react"; "axios"; "express"]).
Proof.
  destruct (loadPriorityPackages_first_run toyParse toyStringify) as [H _].
  apply H. reflexivity.
Defined.

(** ** The report as a whole *)

Section ReportFacts.

Variable semverParse : string -> option SemVer.
Variable registryGet : string -> option RegistryData.
Variable releasesGet : string -> option nat.
Variable parseLock : string -> option Lock.

Lemma resolveLock_keys_declared (packageJsonDependencies : JS.Dict string)
    (parsedYarnLock : Lock) (name : string) :
  In name (JS.keys (resolveLock packageJsonDependencies parsedYarnLock)) ->
  In name (JS.keys packageJsonDependencies).
Proof.
  intros Hin. destruct (get_In_keys _ _ Hin) as [v Hv].
  destruct (in_dec string_dec name (JS.keys packageJsonDependencies))
    as [Hdecl | Hnot]; [exact Hdecl |].
  unfold resolveLock in Hv.
  rewrite resolve_names_absent in Hv by exact Hnot. discriminate Hv.
Qed.

Lemma getDependencyUpdates_record (dependencies : JS.Dict string)
    (u : UpdateRecord) :
  In u (getDependencyUpdates registryGet releasesGet dependencies) ->
  In (pkg u) (JS.keys dependencies) /\
  currentVersion u <> latestVersion u /\
  docUrl u <> "".
Proof.
  intros Hu. apply getDependencyUpdates_In in Hu.
  destruct Hu as [[name current] [Hin Hu]].
  apply checkDependency_Some in Hu. destruct Hu as [info [_ [Hne ->]]].
  cbn [pkg currentVersion latestVersion docUrl].
  split; [| split].
  - unfold JS.keys. apply in_map_iff. exists (name, current). auto.
  - intros Heq. apply Hne. symmetry. exact Heq.
  - apply resolveDocUrl_nonempty.
Qed.

(** The dependency map the run reports on. *)
Lemma main_reported (lockfile : option string) (priorityPackages : list string)
    (packageJsonDependencies : JS.Dict string) :
  exists deps,
    (deps = packageJsonDependencies \/
     exists parsedYarnLock,
       deps = resolveLock packageJsonDependencies parsedYarnLock) /\
    priorityUpdates
      (main semverParse registryGet releasesGet parseLock lockfile
         priorityPackages packageJsonDependencies) =
      prioritized priorityPackages
        (sortUpdates semverParse
           (getDependencyUpdates registryGet releasesGet deps)) /\
    otherUpdates
      (main semverParse registryGet releasesGet parseLock lockfile
         priorityPackages packageJsonDependencies) =
      others priorityPackages
        (sortUpdates semverParse
           (getDependencyUpdates registryGet releasesGet deps)).
Proof.
  unfold main, getPackagesFromYarnLock.
  destruct lockfile as [yarnLock |].
  - destruct (parseLock yarnLock) as [parsed |].
    + exists (resolveLock packageJsonDependencies parsed). eauto.
    + exists packageJsonDependencies. auto.
  - exists packageJsonDependencies. auto.
Qed.

(** Every record of the report, in either list and whichever source was
    used, names a dependency declared in the manifest, has different
    current and latest versions and a non-empty documentation URL; and when
    the manifest declares each name once, no package is reported twice. *)
Theorem main_report_records :
  forall (lockfile : option string) (priorityPackages : list string)
         (packageJsonDependencies : JS.Dict string),
    let report :=
      main semverParse registryGet releasesGet parseLock lockfile
        priorityPackages packageJsonDependencies in
    (forall u,
        In u (priorityUpdates report ++ otherUpdates report) ->
        In (pkg u) (JS.keys packageJsonDependencies) /\
        currentVersion u <> latestVersion u /\
        docUrl u <> "") /\
    (NoDup (JS.keys packageJsonDependencies) ->
     NoDup (map pkg (priorityUpdates report ++ otherUpdates report))).
Proof.
  intros lockfile pp decl. cbv zeta.
  destruct (main_reported lockfile pp decl) as [deps [Hdeps [-> ->]]].
  assert (Hperm : Permutation
                    (prioritized pp
                       (sortUpdates semverParse
                          (getDependencyUpdates registryGet releasesGet deps)) ++
                     others pp
                       (sortUpdates semverParse
                          (getDependencyUpdates registryGet releasesGet deps)))
                    (getDependencyUpdates registryGet releasesGet deps)).
  { eapply Permutation_trans; [| apply sortUpdates_Permutation].
    unfold prioritized, others.
    apply (partition_Permutation (fun x => JS.arrayIncludes pp (pkg x))). }
  split.
  - intros u Hu. apply (Permutation_in _ Hperm) in Hu.
    apply getDependencyUpdates_record in Hu.
    destruct Hu as [Hname Hrest]. split; [| exact Hrest].
    destruct Hdeps as [-> | [parsed ->]]; [exact Hname |].
    exact (resolveLock_keys_declared decl parsed _ Hname).
  - intros Hnodup.
    apply (Permutation_NoDup (Permutation_sym (Permutation_map pkg Hperm))).
    rewrite getDependencyUpdates_keys.
    apply keys_filter_NoDup.
    destruct Hdeps as [-> | [parsed ->]]; [exact Hnodup |].
    unfold resolveLock.
    rewrite (resolve_names_keys decl parsed (JS.keys decl) [] Hnodup)
      by (intros n _ []).
    apply NoDup_filter, Hnodup.
Qed.

(** In both lists of the report the distances never increase from one
    record to the next. *)
Theorem main_report_sorted :
  forall (lockfile : option string) (priorityPackages : list string)
         (packageJsonDependencies : JS.Dict string),
    let report :=
      main semverParse registryGet releasesGet parseLock lockfile
        priorityPackages packageJsonDependencies in
    StronglySorted (descending semverParse) (priorityUpdates report) /\
    StronglySorted (descending semverParse) (otherUpdates report).
Proof.
  intros lockfile pp decl. cbv zeta.
  destruct (main_reported lockfile pp decl) as [deps [_ [-> ->]]].
  unfold prioritized, others.
  split; apply StronglySorted_filter, sortUpdates_sorted.
Qed.

End ReportFacts.

Lemma main_report_records_witness :
  NoDup
    (map pkg
       (priorityUpdates
          (main plainSemver exampleRegistry noReleases parseThrows None
             ["react"; "axios"; "express"] exampleDependencies) ++
        otherUpdates
          (main plainSemver exampleRegistry noReleases parseThrows None
             ["react"; "axios"; "express"] exampleDependencies))).
Proof.
  destruct (main_report_records plainSemver exampleRegistry noReleases
              parseThrows None ["react"; "axios"; "express"]
              exampleDependencies) as [_ H].
  apply H. repeat constructor; simpl; intuition discriminate.
Defined.

(** ** Documentation URL of a package hosted on GitHub *)

(** For a package whose registry entry gives a [github.com] repository, in
    the web form or one of the three transport forms, with or without the
    [git+] marker and the [.git] suffix (and no other occurrence of either),
    the documentation URL is [https://github.com/<path>/releases] when the
    GitHub API lists a release for [<path>], and the npm versions page when
    it lists none or the request fails. *)
Theorem resolveDocUrl_github :
  forall (releasesGet : string -> option nat) (name : string) (info : PkgInfo)
         (pre base path suf : string),
    repositoryUrl info = Some (pre ++ (base ++ path) ++ suf)%string ->
    pre = "" \/ pre = "git+" ->
    suf = "" \/ suf = ".git" ->
    base = "https://github.com/" \/ base = "ssh://git@github.com/" \/
    base = "git@github.com:" \/ base = "git://github.com/" ->
    JS.includes (base ++ path) "git+" = false ->
    JS.includes (base ++ path) ".git" = false ->
    resolveDocUrl releasesGet name info =
    match
      releasesGet ("https://api.github.com/repos/" ++ path ++ "/releases")%string
    with
    | Some (S _) => ("https://github.com/" ++ path ++ "/releases")%string
    | _ => npmVersionsUrl name
    end.
Proof.
  intros releasesGet name info pre base path suf Hu Hpre Hsuf Hbase Hplus Hdot.
  assert (Hclean : cleanRepositoryUrl (pre ++ (base ++ path) ++ suf) =
                   ("https://github.com/" ++ path)%string).
  { unfold cleanRepositoryUrl.
    rewrite (strip_markers (base ++ path) pre suf Hplus Hdot Hpre Hsuf).
    destruct Hbase as [-> | [-> | [-> | ->]]].
    - apply convertSshUrlToHttps_web.
    - apply convertSshUrlToHttps_ssh.
    - apply convertSshUrlToHttps_scp.
    - apply convertSshUrlToHttps_git. }
  rewrite (resolveDocUrl_with_repo releasesGet name info _ Hu)
    by (rewrite Hclean; discriminate).
  rewrite Hclean.
  rewrite (checkReleases_endpoint releasesGet).
  unfold releasesEndpoint. rewrite convertSshUrlToHttps_web.
  rewrite (replace_prefix "https://github.com/"
             "https://api.github.com/repos/" path).
  change (("https://api.github.com/repos/" ++ path) ++ "/releases")%string
    with ("https://api.github.com/repos/" ++ path ++ "/releases")%string.
  destruct (releasesGet _) as [[|n] |]; reflexivity.
Qed.

Lemma resolveDocUrl_github_witness :
  resolveDocUrl
    (fun address =>
       if (address =? "https://api.github.com/repos/acme/widget/releases")%string
       then Some 2 else None)
    "widget" widgetInfo =
  "https://github.com/acme/widget/releases".
Proof.
  rewrite (resolveDocUrl_github _ "widget" widgetInfo
             "git+" "ssh://git@github.com/" "acme/widget" ".git");
    try reflexivity.
  - right. reflexivity.
  - right. reflexivity.
  - right. left. reflexivity.
Defined.

Lemma mainTables_show_report_witness :
  shown
    (mainTables plainSemver exampleRegistry noReleases parseThrows false None
       ["react"; "axios"; "express"] exampleDependencies) =
  [{| pkg := "left-pad"; currentVersion := "1.0.0"; latestVersion := "1.3.0";
      docUrl := "https://www.npmjs.com/package/left-pad?activeTab=versions" |}].
Proof.
  destruct (mainTables_show_report plainSemver exampleRegistry noReleases
              parseThrows false None ["react"; "axios"; "express"]
              exampleDependencies) as [H _].
  rewrite H. reflexivity.
Defined.

Example mainTables_example :
  mainTables plainSemver exampleRegistry noReleases parseThrows false None
    ["react"; "axios"; "express"] exampleDependencies =
  [{| title := "Other Updates from package.json";
      rows :=
        [{| pkg := "left-pad"; currentVersion := "1.0.0";
            latestVersion := "1.3.0";
            docUrl := "https://www.npmjs.com/package/left-pad?activeTab=versions" |}];
      colWidths := (10, 19, 59) |}].
Proof. reflexivity. Qed.
